(** * adTime storage layer: PostgresStorage over a relational store and a cache

    A shallow embedding of the [postgres] package (type [PostgresStorage] and
    its methods) together with the two services it talks to: the relational
    store behind [s.db] and the cache behind [s.redis].  Every method is a
    computation in a state monad over [World]; Go's [(value, error)] results
    are kept as pairs. *)

From Stdlib Require Import ZArith SpecFloat Ascii.
From stdpp Require Import base option list gmap strings pretty sorting.

Local Open Scope string_scope.
Local Open Scope list_scope.
Local Open Scope Z_scope.

(** ** Basic Go types *)

(** [float64]: IEEE-754 binary64 values, including both zeros, the infinities
    and NaN. *)
Definition float64 : Type := spec_float.

Definition f64_zero : float64 := S754_zero false.

(** Go's [x <= 0] on [float64]; false as soon as [x] is NaN. *)
Definition f64_le_zero (x : float64) : bool := SFleb x f64_zero.

(** Go's [x > 0] on [float64], i.e. [0 < x]. *)
Definition f64_gt_zero (x : float64) : bool := SFltb f64_zero x.

Definition f64_is_finite (x : float64) : bool :=
  match x with
  | S754_zero _ | S754_finite _ _ _ => true
  | S754_infinity _ | S754_nan => false
  end.

(** Binary64 addition, used by the [SUM(price)] aggregates. *)
Definition f64_add (x y : float64) : float64 := SFadd 53 1024 x y.

(** [time.Time] and [time.Duration], both in nanoseconds. *)
Definition Time : Type := Z.
Definition Duration : Type := Z.

Definition Hour : Duration := 3600 * 1000000000.
Definition Day : Duration := 24 * Hour.

Definition max_int64 : Z := 9223372036854775807.

(** ** Errors *)

(** Package-level error values that callers test for with [errors.Is]. *)
Inductive sentinel : Type :=
| ErrNoRows          (* sql.ErrNoRows *)
| RedisNil.          (* the cache client's "key does not exist" *)

(** Error values.  [New] is [fmt.Errorf] without a [%w] verb (a fresh value
    that wraps nothing), [Wrap] is [fmt.Errorf("<prefix>: %w", cause)]. *)
Inductive error : Type :=
| Sentinel (s : sentinel)
| Fault (msg : string)
| New (msg : string)
| Wrap (prefix : string) (cause : error).

#[global] Instance sentinel_eq_dec : EqDecision sentinel.
Proof. solve_decision. Defined.

(** [errors.Is err target] for a sentinel target: walk the wrap chain. *)
Fixpoint errors_Is (err : error) (target : sentinel) : bool :=
  match err with
  | Sentinel s => bool_decide (s = target)
  | Fault _ | New _ => false
  | Wrap _ cause => errors_Is cause target
  end.

(** [err.Error()]: the message text. *)
Fixpoint Error (err : error) : string :=
  match err with
  | Sentinel ErrNoRows => "sql: no rows in result set"
  | Sentinel RedisNil => "redis: nil"
  | Fault msg => msg
  | New msg => msg
  | Wrap prefix cause => prefix +:+ ": " +:+ Error cause
  end.

(** ** Entities *)

Record Texture : Type := mkTexture {
  TexID : string;
  Name : string;
  PricePerDM2 : float64;
  ImageURL : string;
  InStock : bool;
}.

Record Order : Type := mkOrder {
  ID : Z;
  UserID : Z;
  WidthCM : Z;
  HeightCM : Z;
  TextureID : string;
  TextureName : string;
  Price : float64;
  LeatherCost : float64;
  ProcessCost : float64;
  TotalCost : float64;
  Commission : float64;
  Tax : float64;
  NetRevenue : float64;
  Profit : float64;
  Contact : string;
  Status : string;
  CreatedAt : Time;
  UpdatedAt : Time;
}.

Record OrderStatistics : Type := mkOrderStatistics {
  TotalOrders : Z;
  TotalRevenue : float64;
  TodayOrders : Z;
  TodayRevenue : float64;
  WeekOrders : Z;
  WeekRevenue : float64;
  MonthOrders : Z;
  MonthRevenue : float64;
  StatusCounts : gmap string Z;
}.

(** Zero values of the structs ([var texture Texture] and the like). *)
Definition zero_Time : Time := -62135596800 * 1000000000.

Definition zero_Texture : Texture := mkTexture EmptyString EmptyString f64_zero EmptyString false.

Definition zero_Order : Order :=
  mkOrder 0 0 0 0 EmptyString EmptyString f64_zero f64_zero f64_zero f64_zero f64_zero
          f64_zero f64_zero f64_zero EmptyString EmptyString zero_Time zero_Time.

Definition zero_OrderStatistics : OrderStatistics :=
  mkOrderStatistics 0 f64_zero 0 f64_zero 0 f64_zero 0 f64_zero ∅.

(** ** Byte payloads and encoding/json

    A cached byte string is represented by what it denotes: the JSON
    document that [json.Marshal] writes for a texture, the JSON document of
    a statistics value, the decimal integer kept by the cache's counter, or
    bytes that are not JSON at all. *)
Inductive bytes : Type :=
| JTexture (t : Texture)
| JStats (s : OrderStatistics)
| JInt (n : Z)
| JRaw (s : string).

Definition nil_bytes : bytes := JRaw EmptyString.

(** [json.Marshal(texture)]: fails on a float that JSON cannot express. *)
Definition json_Marshal_Texture (t : Texture) : option bytes :=
  if f64_is_finite (PricePerDM2 t) then Some (JTexture t) else None.

(** [json.Marshal(stats)]. *)
Definition json_Marshal_OrderStatistics (s : OrderStatistics) : option bytes :=
  if f64_is_finite (TotalRevenue s) && f64_is_finite (TodayRevenue s)
     && f64_is_finite (WeekRevenue s) && f64_is_finite (MonthRevenue s)
  then Some (JStats s) else None.

(** The class of the first byte of a UTF-8 sequence, as in
    [utf8.DecodeRuneInString]: the number of bytes that follow and the range
    in which the second byte must lie; nothing for a byte that cannot start a
    sequence. *)
Definition utf8_first (c : ascii) : option (nat * N * N) :=
  let b := N_of_ascii c in
  (if b <? 128 then Some (0%nat, 0, 0)
   else if b <? 194 then None
   else if b <? 224 then Some (1%nat, 128, 191)
   else if b =? 224 then Some (2%nat, 160, 191)
   else if b =? 237 then Some (2%nat, 128, 159)
   else if b <? 240 then Some (2%nat, 128, 191)
   else if b =? 240 then Some (3%nat, 144, 191)
   else if b <? 244 then Some (3%nat, 128, 191)
   else if b =? 244 then Some (3%nat, 128, 143)
   else None)%N.

Definition byte_in (lo hi : N) (c : ascii) : bool :=
  ((lo <=? N_of_ascii c) && (N_of_ascii c <=? hi))%N.

(** U+FFFD in UTF-8. *)
Definition replacement_char : string :=
  String (ascii_of_N 239) (String (ascii_of_N 191) (String (ascii_of_N 189) EmptyString)).

(** A string after it has gone through [encoding/json]: well-formed UTF-8
    sequences are kept, every other byte is replaced by U+FFFD. *)
Fixpoint coerce_utf8 (s : string) : string :=
  match s with
  | EmptyString => EmptyString
  | String c0 s1 =>
      let bad := replacement_char +:+ coerce_utf8 s1 in
      match utf8_first c0 with
      | None => bad
      | Some (O, _, _) => String c0 (coerce_utf8 s1)
      | Some (1%nat, lo, hi) =>
          match s1 with
          | String c1 s2 =>
              if byte_in lo hi c1
              then String c0 (String c1 (coerce_utf8 s2))
              else bad
          | _ => bad
          end
      | Some (2%nat, lo, hi) =>
          match s1 with
          | String c1 (String c2 s3) =>
              if byte_in lo hi c1 && byte_in 128 191 c2
              then String c0 (String c1 (String c2 (coerce_utf8 s3)))
              else bad
          | _ => bad
          end
      | Some (_, lo, hi) =>
          match s1 with
          | String c1 (String c2 (String c3 s4)) =>
              if byte_in lo hi c1 && byte_in 128 191 c2 && byte_in 128 191 c3
              then String c0 (String c1 (String c2 (String c3 (coerce_utf8 s4))))
              else bad
          | _ => bad
          end
      end
  end.

(** The texture read back from the JSON document of [t]. *)
Definition json_read_Texture (t : Texture) : Texture :=
  mkTexture (coerce_utf8 (TexID t)) (coerce_utf8 (Name t)) (PricePerDM2 t)
            (coerce_utf8 (ImageURL t)) (InStock t).

(** [json.Unmarshal(data, &texture)]: the document of a texture is read
    back with its strings coerced to UTF-8; an object with none of the
    struct's keys decodes to the zero struct; a number or non-JSON bytes is
    an error. *)
Definition json_Unmarshal_Texture (data : bytes) : option Texture :=
  match data with
  | JTexture t => Some (json_read_Texture t)
  | JStats _ => Some zero_Texture
  | JInt _ | JRaw _ => None
  end.

(** Strings of 7-bit characters only. *)
Fixpoint is_ascii (s : string) : bool :=
  match s with
  | EmptyString => true
  | String c s' => (N_of_ascii c <? 128)%N && is_ascii s'
  end.

(** [json.Unmarshal(data, &stats)]. *)
Definition json_Unmarshal_OrderStatistics (data : bytes) : option OrderStatistics :=
  match data with
  | JStats s => Some s
  | JTexture _ => Some zero_OrderStatistics
  | JInt _ | JRaw _ => None
  end.

(** ** The world: relational tables, cache contents, clock, fault scripts *)

(** A row of table [orders], with the columns that the statements of the
    package name: the fifteen columns written by [SaveOrder]'s INSERT, the
    store-assigned [id], and the soft-delete column. *)
Record OrderRow : Type := mkOrderRow {
  id : Z;
  user_id : Z;
  width_cm : Z;
  height_cm : Z;
  texture_id : string;
  price : float64;
  leather_cost : float64;
  process_cost : float64;
  total_cost : float64;
  commission : float64;
  tax : float64;
  net_revenue : float64;
  profit : float64;
  contact : string;
  status : string;
  created_at : Time;
  deleted_at : option Time;
}.

(** A row of table [users], keyed by [user_id]. *)
Record UserRow : Type := mkUserRow {
  agreed_to_tpa : bool;
  phone_number : string;
}.

(** A cache entry: the stored bytes and the instant it expires, if any. *)
Record Entry : Type := mkEntry {
  value : bytes;
  expires_at : option Time;
}.

(** [db_faults] and [cache_faults] script the behaviour of the two services:
    each statement sent to the store, resp. each command sent to the cache,
    consumes the head of its script; [Some msg] makes that one call fail with
    an infrastructure error, [None] (or an exhausted script) lets it run. *)
Record World : Type := mkWorld {
  now : Time;
  orders : list OrderRow;
  next_order_id : Z;
  textures : list Texture;
  users : gmap Z UserRow;
  db_faults : list (option string);
  cache : gmap string Entry;
  cache_faults : list (option string);
}.

Definition set_orders (rows : list OrderRow) (w : World) : World :=
  mkWorld (now w) rows (next_order_id w) (textures w) (users w)
          (db_faults w) (cache w) (cache_faults w).

Definition set_next_order_id (n : Z) (w : World) : World :=
  mkWorld (now w) (orders w) n (textures w) (users w)
          (db_faults w) (cache w) (cache_faults w).

Definition set_users (u : gmap Z UserRow) (w : World) : World :=
  mkWorld (now w) (orders w) (next_order_id w) (textures w) u
          (db_faults w) (cache w) (cache_faults w).

Definition set_db_faults (fs : list (option string)) (w : World) : World :=
  mkWorld (now w) (orders w) (next_order_id w) (textures w) (users w)
          fs (cache w) (cache_faults w).

Definition set_cache (c : gmap string Entry) (w : World) : World :=
  mkWorld (now w) (orders w) (next_order_id w) (textures w) (users w)
          (db_faults w) c (cache_faults w).

Definition set_cache_faults (fs : list (option string)) (w : World) : World :=
  mkWorld (now w) (orders w) (next_order_id w) (textures w) (users w)
          (db_faults w) (cache w) fs.

(** The passage of [d] nanoseconds. *)
Definition elapse (d : Duration) (w : World) : World :=
  mkWorld (now w + d) (orders w) (next_order_id w) (textures w) (users w)
          (db_faults w) (cache w) (cache_faults w).

(** ** State monad *)

Definition M (A : Type) : Type := World → A * World.

Definition ret {A} (a : A) : M A := λ w, (a, w).

Definition bind {A B} (m : M A) (k : A → M B) : M B :=
  λ w, let '(a, w') := m w in k a w'.

Definition get_world : M World := λ w, (w, w).

Definition modify (f : World → World) : M unit := λ w, (tt, f w).

Notation "x <~ m ;; k" := (bind m (λ x, k))
  (at level 20, m at level 99, k at level 200, only parsing).
Notation "' pat <~ m ;; k" := (bind m (λ x, match x with pat => k end))
  (at level 20, pat pattern, m at level 99, k at level 200, only parsing).
Notation "m ;;; k" := (bind m (λ _, k))
  (at level 99, k at level 200, only parsing).

(** Result and final world of a computation. *)
Definition result {A} (m : M A) (w : World) : A := fst (m w).
Definition after {A} (m : M A) (w : World) : World := snd (m w).

(** ** Cache client *)

(** A command reaches the cache unless the script says it fails. *)
Definition cache_call : M (option error) :=
  λ w, match cache_faults w with
       | [] => (None, w)
       | f :: fs => (Fault <$> f, set_cache_faults fs w)
       end.

(** The entry under [key] that has not expired at time [t]. *)
Definition live (t : Time) (e : option Entry) : option Entry :=
  match e with
  | Some en =>
      match expires_at en with
      | Some x => if bool_decide (t < x) then Some en else None
      | None => Some en
      end
  | None => None
  end.

(** Modelled from the spec: the cache client [redis.Client] (package
    [pkg/redis]) is not among the sources; the spec describes it as "a
    key/value store with expiration, atomic increment, and explicit
    deletion" that "wraps a network-backed cache service".  [Get] reads a
    key and reports an absent key as an error. *)
Definition redis_Get (key : string) : M (bytes * option error) :=
  f <~ cache_call ;;
  match f with
  | Some e => ret (nil_bytes, Some e)
  | None =>
      w <~ get_world ;;
      match live (now w) (cache w !! key) with
      | Some en => ret (value en, None)
      | None => ret (nil_bytes, Some (Sentinel RedisNil))
      end
  end.

(** Modelled from the spec: [Set] of the absent cache client; stores [data]
    under [key] with time-to-live [ttl]. *)
Definition redis_Set (key : string) (data : bytes) (ttl : Duration) : M (option error) :=
  f <~ cache_call ;;
  match f with
  | Some e => ret (Some e)
  | None =>
      modify (λ w, set_cache (<[key := mkEntry data (Some (now w + ttl))]> (cache w)) w) ;;;
      ret None
  end.

(** Modelled from the spec: [Del] of the absent cache client ("explicit
    deletion"). *)
Definition redis_Del (key : string) : M (option error) :=
  f <~ cache_call ;;
  match f with
  | Some e => ret (Some e)
  | None =>
      modify (λ w, set_cache (delete key (cache w)) w) ;;;
      ret None
  end.

(** Modelled from the spec: [Incr] of the absent cache client ("atomic
    increment").  A key that is absent or expired starts at 1 without an
    expiry; a live counter keeps its expiry. *)
Definition redis_Incr (key : string) : M (Z * option error) :=
  f <~ cache_call ;;
  match f with
  | Some e => ret (0, Some e)
  | None =>
      w <~ get_world ;;
      match live (now w) (cache w !! key) with
      | None =>
          modify (set_cache (<[key := mkEntry (JInt 1) None]> (cache w))) ;;;
          ret (1, None)
      | Some en =>
          match value en with
          | JInt n =>
              if bool_decide (n < max_int64) then
                modify (set_cache (<[key := mkEntry (JInt (n + 1)) (expires_at en)]> (cache w))) ;;;
                ret (n + 1, None)
              else ret (0, Some (Fault "ERR increment or decrement would overflow"))
          | _ => ret (0, Some (Fault "ERR value is not an integer or out of range"))
          end
      end
  end.

(** Modelled from the spec: [Expire] of the absent cache client ("per-key
    expiry"); reports whether a live key was found. *)
Definition redis_Expire (key : string) (window : Duration) : M (bool * option error) :=
  f <~ cache_call ;;
  match f with
  | Some e => ret (false, Some e)
  | None =>
      w <~ get_world ;;
      match live (now w) (cache w !! key) with
      | Some en =>
          modify (set_cache (<[key := mkEntry (value en) (Some (now w + window))]> (cache w))) ;;;
          ret (true, None)
      | None => ret (false, None)
      end
  end.

(** ** Relational store *)

(** A statement reaches the store unless the script says it fails. *)
Definition db_call : M (option error) :=
  λ w, match db_faults w with
       | [] => (None, w)
       | f :: fs => (Fault <$> f, set_db_faults fs w)
       end.

(** [SELECT id::text, name, price_per_dm2, image_url, in_stock
     FROM textures WHERE id = $1], read with [GetContext]. *)
Definition query_texture_by_id (textureID : string) : M (Texture * option error) :=
  f <~ db_call ;;
  match f with
  | Some e => ret (zero_Texture, Some e)
  | None =>
      w <~ get_world ;;
      match head (filter (λ t, TexID t = textureID) (textures w)) with
      | Some t => ret (t, None)
      | None => ret (zero_Texture, Some (Sentinel ErrNoRows))
      end
  end.

(** A [time.Time] as the store keeps it: the driver sends the instant with
    its nanoseconds and the store rounds it to the microsecond (to the
    nearest one, to the even one when half-way). *)
Definition pg_timestamp (t : Time) : Time :=
  let q := t `div` 1000 in
  let r := t `mod` 1000 in
  if bool_decide (r < 500) then 1000 * q
  else if bool_decide (500 < r) then 1000 * (q + 1)
  else if Z.even q then 1000 * q else 1000 * (q + 1).

(** The row written by [SaveOrder]'s INSERT: fifteen columns from the
    order, [id] from the sequence, and no deletion timestamp. *)
Definition new_order_row (oid : Z) (o : Order) : OrderRow :=
  mkOrderRow oid (UserID o) (WidthCM o) (HeightCM o) (TextureID o) (Price o)
             (LeatherCost o) (ProcessCost o) (TotalCost o) (Commission o)
             (Tax o) (NetRevenue o) (Profit o) (Contact o) (Status o)
             (pg_timestamp (CreatedAt o)) None.

(** [INSERT INTO orders (...) VALUES (...) RETURNING id]. *)
Definition exec_insert_order (o : Order) : M (Z * option error) :=
  f <~ db_call ;;
  match f with
  | Some e => ret (0, Some e)
  | None =>
      w <~ get_world ;;
      let oid := next_order_id w in
      modify (λ w, set_next_order_id (oid + 1)
                     (set_orders (orders w ++ [new_order_row oid o]) w)) ;;;
      ret (oid, None)
  end.

(** The columns of [orders] in a [SELECT *]. *)
Definition orders_columns : list string :=
  [ "id"; "user_id"; "width_cm"; "height_cm"; "texture_id"; "price";
    "leather_cost"; "process_cost"; "total_cost"; "commission"; "tax";
    "net_revenue"; "profit"; "contact"; "status"; "created_at"; "deleted_at" ].

(** The [db] tags of the fields of [Order]. *)
Definition Order_db_tags : list string :=
  [ "id"; "user_id"; "width_cm"; "height_cm"; "texture_id"; "texture_name";
    "price"; "leather_cost"; "process_cost"; "total_cost"; "commission"; "tax";
    "net_revenue"; "profit"; "contact"; "status"; "created_at"; "updated_at" ].

(** [sqlx] reads a result set into a struct only if every column has a
    destination field (the handle is not in unsafe mode); it checks this
    before it looks at any row, and reports the first column without one. *)
Definition sqlx_missing_destination (columns tags : list string) : option string :=
  head (filter (λ c, c ∉ tags) columns).

(** The error of [sqlx] for a column without destination in [dest]. *)
Definition missing_destination_error (column dest : string) : error :=
  New ("missing destination name " +:+ column +:+ " in " +:+ dest).

(** An [orders] row scanned into an [Order]: every column with a
    destination field; [texture_name] and [updated_at] are not among the
    columns of the row, so the fields keep their zero values. *)
Definition scan_order (r : OrderRow) : Order :=
  mkOrder (id r) (user_id r) (width_cm r) (height_cm r) (texture_id r) EmptyString
          (price r) (leather_cost r) (process_cost r) (total_cost r)
          (commission r) (tax r) (net_revenue r) (profit r) (contact r)
          (status r) (created_at r) zero_Time.

(** [SELECT * FROM orders WHERE id = $1], read with [GetContext] into an
    [Order]. *)
Definition query_order_by_id (orderID : Z) : M (Order * option error) :=
  f <~ db_call ;;
  match f with
  | Some e => ret (zero_Order, Some e)
  | None =>
      match sqlx_missing_destination orders_columns Order_db_tags with
      | Some column =>
          ret (zero_Order, Some (missing_destination_error column "*postgres.Order"))
      | None =>
          w <~ get_world ;;
          match head (filter (λ r, id r = orderID) (orders w)) with
          | Some r => ret (scan_order r, None)
          | None => ret (zero_Order, Some (Sentinel ErrNoRows))
          end
      end
  end.

(** The six columns selected by [GetUserOrders], scanned into an [Order]. *)
Definition scan_user_order (r : OrderRow) : Order :=
  mkOrder (id r) 0 (width_cm r) (height_cm r) EmptyString EmptyString (price r)
          f64_zero f64_zero f64_zero f64_zero f64_zero f64_zero f64_zero
          EmptyString (status r) (created_at r) zero_Time.

(** [ORDER BY created_at DESC]: [newer_first a b] when [a] may precede [b]. *)
Definition newer_first (a b : OrderRow) : Prop := created_at b ≤ created_at a.

#[global] Instance newer_first_dec a b : Decision (newer_first a b).
Proof. unfold newer_first. apply _. Defined.

(** [WHERE user_id = $1 AND deleted_at IS NULL]. *)
Definition visible_to (userID : Z) (r : OrderRow) : Prop :=
  user_id r = userID ∧ deleted_at r = None.

#[global] Instance visible_to_dec userID r : Decision (visible_to userID r).
Proof. unfold visible_to. apply _. Defined.

(** The rows selected by [GetUserOrders]'s query, in result order. *)
Definition user_order_rows (userID : Z) (rows : list OrderRow) : list OrderRow :=
  merge_sort newer_first (filter (visible_to userID) rows).

(** [SELECT id, width_cm, height_cm, price, status, created_at FROM orders
     WHERE user_id = $1 AND deleted_at IS NULL ORDER BY created_at DESC],
    read with [SelectContext] into a nil slice. *)
Definition query_user_orders (userID : Z) : M (list Order * option error) :=
  f <~ db_call ;;
  match f with
  | Some e => ret ([], Some e)
  | None =>
      w <~ get_world ;;
      ret (scan_user_order <$> user_order_rows userID (orders w), None)
  end.

Definition soft_delete (t : Time) (r : OrderRow) : OrderRow :=
  mkOrderRow (id r) (user_id r) (width_cm r) (height_cm r) (texture_id r)
             (price r) (leather_cost r) (process_cost r) (total_cost r)
             (commission r) (tax r) (net_revenue r) (profit r) (contact r)
             (status r) (created_at r) (Some t).

(** [UPDATE orders SET deleted_at = NOW() WHERE user_id = $1]. *)
Definition exec_soft_delete (chatID : Z) : M (option error) :=
  f <~ db_call ;;
  match f with
  | Some e => ret (Some e)
  | None =>
      modify (λ w, set_orders
                     ((λ r, if bool_decide (user_id r = chatID)
                            then soft_delete (now w) r else r) <$> orders w) w) ;;;
      ret None
  end.

(** [INSERT INTO users ... ON CONFLICT (user_id) DO UPDATE SET
     agreed_to_tpa = TRUE, phone_number = $2]. *)
Definition exec_upsert_agreement (userID : Z) (phone : string) : M (option error) :=
  f <~ db_call ;;
  match f with
  | Some e => ret (Some e)
  | None =>
      modify (λ w, set_users (<[userID := mkUserRow true phone]> (users w)) w) ;;;
      ret None
  end.

(** [SELECT agreed_to_tpa, phone_number FROM users WHERE user_id = $1],
    read with [QueryRowContext(...).Scan(&agreed, &phone)]. *)
Definition query_agreement (userID : Z) : M (bool * string * option error) :=
  f <~ db_call ;;
  match f with
  | Some e => ret (false, EmptyString, Some e)
  | None =>
      w <~ get_world ;;
      match users w !! userID with
      | Some u => ret (agreed_to_tpa u, phone_number u, None)
      | None => ret (false, EmptyString, Some (Sentinel ErrNoRows))
      end
  end.

(** [COALESCE(SUM(price), 0)] over the selected rows. *)
Definition sum_price (rows : list OrderRow) : float64 :=
  match rows with
  | [] => f64_zero
  | r :: rest => foldl (λ acc r', f64_add acc (price r')) (price r) rest
  end.

(** [CURRENT_DATE]: the start of the current day. *)
Definition current_date (t : Time) : Time := t - t `mod` Day.

(** The rows with [created_at >= CURRENT_DATE - back]. *)
Definition rows_since (t : Time) (back : Duration) (rows : list OrderRow)
  : list OrderRow :=
  filter (λ r, current_date t - back ≤ created_at r) rows.

(** [SELECT COUNT( * ), COALESCE(SUM(price), 0) FROM orders], with
    [WHERE created_at >= CURRENT_DATE - INTERVAL back] when [since] is
    [Some back]. *)
Definition query_count_revenue (since : option Duration)
  : M (Z * float64 * option error) :=
  f <~ db_call ;;
  match f with
  | Some e => ret (0, f64_zero, Some e)
  | None =>
      w <~ get_world ;;
      let rows :=
        match since with
        | None => orders w
        | Some back => rows_since (now w) back (orders w)
        end in
      ret (Z.of_nat (length rows), sum_price rows, None)
  end.

(** The counting map behind [GROUP BY status]. *)
Definition count_by_status (rows : list OrderRow) : gmap string Z :=
  foldr (λ r m, <[status r := default 0 (m !! status r) + 1]> m) ∅ rows.

(** [SELECT status, COUNT( * ) as count FROM orders GROUP BY status], read
    with [SelectContext] into a slice of [(Status, Count)]. *)
Definition query_status_counts : M (list (string * Z) * option error) :=
  f <~ db_call ;;
  match f with
  | Some e => ret ([], Some e)
  | None =>
      w <~ get_world ;;
      ret (map_to_list (count_by_status (orders w)), None)
  end.

(** ** fmt *)

Definition two_digits (n : Z) : string :=
  if bool_decide (n < 10) then "0" +:+ pretty n else pretty n.

(** The magnitude [m * 2^e] in hundredths, rounded to nearest, ties to
    even. *)
Definition hundredths (m : positive) (e : Z) : Z :=
  if bool_decide (0 ≤ e) then Z.pos m * 100 * 2 ^ e
  else
    let d := 2 ^ (- e) in
    let q := (Z.pos m * 100) `div` d in
    let r := (Z.pos m * 100) `mod` d in
    if bool_decide (d < 2 * r) then q + 1
    else if bool_decide (2 * r = d) && Z.odd q then q + 1
    else q.

(** The verb [%.2f] applied to a [float64]. *)
Definition fmt_f2 (x : float64) : string :=
  match x with
  | S754_nan => "NaN"
  | S754_infinity s => if s then "-Inf" else "+Inf"
  | S754_zero s => (if s then "-" else EmptyString) +:+ "0.00"
  | S754_finite s m e =>
      let h := hundredths m e in
      (if s then "-" else EmptyString) +:+ pretty (h `div` 100) +:+ "." +:+ two_digits (h `mod` 100)
  end.

(** ** PostgresStorage *)

(** [GetUserOrders]. *)
Definition GetUserOrders (userID : Z) : M (list Order * option error) :=
  query_user_orders userID.

(** [DeleteUserData]. *)
Definition DeleteUserData (chatID : Z) : M (option error) :=
  exec_soft_delete chatID.

(** The cache key of a texture, [fmt.Sprintf("texture:%s", textureID)]. *)
Definition texture_cache_key (textureID : string) : string :=
  "texture:" +:+ textureID.

(** [GetTextureByID] from the comment "Fall back to Postgres" on: the store
    read, validation of the loaded price, and population of the cache. *)
Definition GetTextureByID_fallback (textureID : string)
  : M (option Texture * option error) :=
  let cacheKey := texture_cache_key textureID in
  '(texture, err) <~ query_texture_by_id textureID ;;
  match err with
  | Some e =>
      if errors_Is e ErrNoRows
      then ret (None, Some (Wrap "texture not found" e))
      else ret (None, Some (Wrap "failed to get texture" e))
  | None =>
      if f64_le_zero (PricePerDM2 texture)
      then ret (None, Some (New ("invalid price for texture " +:+ textureID
                                   +:+ ": " +:+ fmt_f2 (PricePerDM2 texture))))
      else
        match json_Marshal_Texture texture with
        | Some data =>
            redis_Set cacheKey data (24 * Hour) ;;;
            ret (Some texture, None)
        | None => ret (Some texture, None)
        end
  end.

(** [GetTextureByID]: the cache is tried first; a cached texture is returned
    only when it decodes and its price passes validation. *)
Definition GetTextureByID (textureID : string) : M (option Texture * option error) :=
  let cacheKey := texture_cache_key textureID in
  '(cached, err) <~ redis_Get cacheKey ;;
  match err with
  | None =>
      match json_Unmarshal_Texture cached with
      | Some texture =>
          if f64_le_zero (PricePerDM2 texture)
          then GetTextureByID_fallback textureID
          else ret (Some texture, None)
      | None => GetTextureByID_fallback textureID
      end
  | Some _ => GetTextureByID_fallback textureID
  end.

(** [SaveOrder]. *)
Definition SaveOrder (order : Order) : M (Z * option error) :=
  '(orderID, err) <~ exec_insert_order order ;;
  match err with
  | Some e => ret (0, Some (Wrap "failed to save order" e))
  | None =>
      redis_Del "order_stats" ;;;
      ret (orderID, None)
  end.

(** [SaveUserAgreement]. *)
Definition SaveUserAgreement (userID : Z) (phone : string) : M (option error) :=
  exec_upsert_agreement userID phone.

(** [GetUserAgreement]. *)
Definition GetUserAgreement (userID : Z) : M (bool * string * option error) :=
  '(agreed, phone, err) <~ query_agreement userID ;;
  match err with
  | Some e =>
      if errors_Is e ErrNoRows then ret (false, EmptyString, None)
      else ret (agreed, phone, Some e)
  | None => ret (agreed, phone, None)
  end.

(** [GetOrderByID]. *)
Definition GetOrderByID (orderID : Z) : M (option Order * option error) :=
  '(order, err) <~ query_order_by_id orderID ;;
  match err with
  | Some e =>
      if errors_Is e ErrNoRows
      then ret (None, Some (New "order not found"))
      else ret (None, Some (Wrap "failed to get order" e))
  | None => ret (Some order, None)
  end.

(** The loop [for _, sc := range statusCounts { stats.StatusCounts[sc.Status]
    = sc.Count }] over a fresh map. *)
Definition fill_status_counts (statusCounts : list (string * Z)) : gmap string Z :=
  foldl (λ m sc, <[sc.1 := sc.2]> m) ∅ statusCounts.

(** [GetOrderStatistics] after the cache attempt: four aggregate queries,
    the grouping query, assembly, and population of the cache. *)
Definition GetOrderStatistics_compute : M (option OrderStatistics * option error) :=
  '(totalOrders, totalRevenue, err) <~ query_count_revenue None ;;
  match err with
  | Some e => ret (None, Some (Wrap "failed to get total stats" e))
  | None =>
  '(todayOrders, todayRevenue, err) <~ query_count_revenue (Some 0) ;;
  match err with
  | Some e => ret (None, Some (Wrap "failed to get today's stats" e))
  | None =>
  '(weekOrders, weekRevenue, err) <~ query_count_revenue (Some (7 * Day)) ;;
  match err with
  | Some e => ret (None, Some (Wrap "failed to get week's stats" e))
  | None =>
  '(monthOrders, monthRevenue, err) <~ query_count_revenue (Some (30 * Day)) ;;
  match err with
  | Some e => ret (None, Some (Wrap "failed to get month's stats" e))
  | None =>
  '(statusCounts, err) <~ query_status_counts ;;
  match err with
  | Some e => ret (None, Some (Wrap "failed to get status counts" e))
  | None =>
      let stats :=
        mkOrderStatistics totalOrders totalRevenue todayOrders todayRevenue
                          weekOrders weekRevenue monthOrders monthRevenue
                          (fill_status_counts statusCounts) in
      match json_Marshal_OrderStatistics stats with
      | Some data =>
          redis_Set "order_stats" data (1 * Hour) ;;;
          ret (Some stats, None)
      | None => ret (Some stats, None)
      end
  end end end end end.

(** [GetOrderStatistics_compute] while other clients use the store and
    time passes: the five statements are not in a transaction, so whatever
    happens between two of them ([others 1] after the first statement, ...,
    [others 4] after the fourth) is seen by the statements that follow.
    [GetOrderStatistics_compute] is the case where nothing happens in
    between. *)
Definition GetOrderStatistics_compute_among (others : nat → M unit)
  : M (option OrderStatistics * option error) :=
  '(totalOrders, totalRevenue, err) <~ query_count_revenue None ;;
  match err with
  | Some e => ret (None, Some (Wrap "failed to get total stats" e))
  | None =>
  others 1%nat ;;;
  '(todayOrders, todayRevenue, err) <~ query_count_revenue (Some 0) ;;
  match err with
  | Some e => ret (None, Some (Wrap "failed to get today's stats" e))
  | None =>
  others 2%nat ;;;
  '(weekOrders, weekRevenue, err) <~ query_count_revenue (Some (7 * Day)) ;;
  match err with
  | Some e => ret (None, Some (Wrap "failed to get week's stats" e))
  | None =>
  others 3%nat ;;;
  '(monthOrders, monthRevenue, err) <~ query_count_revenue (Some (30 * Day)) ;;
  match err with
  | Some e => ret (None, Some (Wrap "failed to get month's stats" e))
  | None =>
  others 4%nat ;;;
  '(statusCounts, err) <~ query_status_counts ;;
  match err with
  | Some e => ret (None, Some (Wrap "failed to get status counts" e))
  | None =>
      let stats :=
        mkOrderStatistics totalOrders totalRevenue todayOrders todayRevenue
                          weekOrders weekRevenue monthOrders monthRevenue
                          (fill_status_counts statusCounts) in
      match json_Marshal_OrderStatistics stats with
      | Some data =>
          redis_Set "order_stats" data (1 * Hour) ;;;
          ret (Some stats, None)
      | None => ret (Some stats, None)
      end
  end end end end end.

(** [GetOrderStatistics]: a cached value that decodes is returned as it is. *)
Definition GetOrderStatistics : M (option OrderStatistics * option error) :=
  let cacheKey := "order_stats" in
  '(cached, err) <~ redis_Get cacheKey ;;
  match err with
  | None =>
      match json_Unmarshal_OrderStatistics cached with
      | Some stats => ret (Some stats, None)
      | None => GetOrderStatistics_compute
      end
  | Some _ => GetOrderStatistics_compute
  end.

(** The counter key, [fmt.Sprintf("ratelimit:%d:%s", userID, action)]. *)
Definition ratelimit_key (userID : Z) (action : string) : string :=
  "ratelimit:" +:+ pretty userID +:+ ":" +:+ action.

(** [CheckRateLimit]. *)
Definition CheckRateLimit (userID : Z) (action : string) (limit : Z)
    (window : Duration) : M (bool * option error) :=
  let key := ratelimit_key userID action in
  '(count, err) <~ redis_Incr key ;;
  match err with
  | Some e => ret (false, Some (Wrap "failed to increment rate limit counter" e))
  | None =>
      if bool_decide (count = 1) then
        '(_, err) <~ redis_Expire key window ;;
        match err with
        | Some e => ret (false, Some (Wrap "failed to set rate limit window" e))
        | None => ret (bool_decide (limit < count), None)
        end
      else ret (bool_decide (limit < count), None)
  end.

(** ** Running a method several times as time passes *)

(** [run_calls m ds]: for each delay [d] of [ds] in turn, let [d] pass and
    call [m]; the results are collected in order. *)
Fixpoint run_calls {A} (m : M A) (ds : list Duration) : M (list A) :=
  match ds with
  | [] => ret []
  | d :: ds' =>
      modify (elapse d) ;;;
      a <~ m ;;
      rest <~ run_calls m ds' ;;
      ret (a :: rest)
  end.

(** [colon_free s]: the text [s] has no [':'], the separator of the counter
    key. *)
Fixpoint colon_free (s : string) : bool :=
  match s with
  | EmptyString => true
  | String c s' => negb (Ascii.eqb c ":"%char) && colon_free s'
  end.

(** The time taken by a sequence of delays. *)
Definition total (ds : list Duration) : Duration := foldr Z.add 0 ds.

(** The counter read off the cache: its value and expiry when the key holds
    a live integer, [(0, None)] when the key is absent or expired, nothing
    when the key holds something else. *)
Definition counter_at (w : World) (key : string) : option (Z * option Time) :=
  match live (now w) (cache w !! key) with
  | None => Some (0, None)
  | Some en =>
      match value en with
      | JInt n => Some (n, expires_at en)
      | _ => None
      end
  end.

(** The verdicts of [n] successive calls that find the counter at [k]. *)
Fixpoint verdicts (limit k : Z) (n : nat) : list (bool * option error) :=
  match n with
  | O => []
  | S n' => (bool_decide (limit < k + 1), None) :: verdicts limit (k + 1) n'
  end.

(** ** Reference values *)

(** The statistics of a table at time [t]: what the five queries of
    [GetOrderStatistics] compute when they all run. *)
Definition statistics_of (t : Time) (rows : list OrderRow) : OrderStatistics :=
  let today := rows_since t 0 rows in
  let week := rows_since t (7 * Day) rows in
  let month := rows_since t (30 * Day) rows in
  mkOrderStatistics (Z.of_nat (length rows)) (sum_price rows)
                    (Z.of_nat (length today)) (sum_price today)
                    (Z.of_nat (length week)) (sum_price week)
                    (Z.of_nat (length month)) (sum_price month)
                    (count_by_status rows).

(** The texture that a call of [GetTextureByID] takes from the cache: the
    entry read by [Get], when it decodes and its price passes validation. *)
Definition cached_texture (textureID : string) (w : World) : option Texture :=
  let '(cached, err) := result (redis_Get (texture_cache_key textureID)) w in
  match err with
  | None =>
      match json_Unmarshal_Texture cached with
      | Some texture =>
          if f64_le_zero (PricePerDM2 texture) then None else Some texture
      | None => None
      end
  | Some _ => None
  end.

(** Primary-key discipline of [orders]: ids are unique and below the
    sequence's next value. *)
Definition orders_keyed (w : World) : Prop :=
  NoDup (id <$> orders w) ∧ Forall (λ r, id r < next_order_id w) (orders w).

(** The statistics that a call of [GetOrderStatistics] takes from the
    cache: the entry read by [Get], when it decodes. *)
Definition cached_statistics (w : World) : option OrderStatistics :=
  let '(cached, err) := result (redis_Get "order_stats") w in
  match err with
  | None => json_Unmarshal_OrderStatistics cached
  | Some _ => None
  end.

(** [served fs]: the next call of the service scripted by [fs] is not made
    to fail. *)
Definition served (fs : list (option string)) : Prop :=
  match fs with
  | Some _ :: _ => False
  | _ => True
  end.

#[global] Instance served_dec fs : Decision (served fs).
Proof. destruct fs as [|[?|] ?]; simpl; apply _. Defined.

(** [all_served n fs]: none of the next [n] calls is made to fail. *)
Definition all_served (n : nat) (fs : list (option string)) : bool :=
  forallb (λ f, bool_decide (f = None)) (take n fs).

(** ** Sample data *)

Definition price_1_50 : float64 := S754_finite false 3 (-1).
Definition price_40 : float64 := S754_finite false 5 3.

Definition leather : Texture :=
  mkTexture "t1" "Leather" price_1_50 "leather.png" true.

Definition leather_unpriced : Texture :=
  mkTexture "t1" "Leather" f64_zero "leather.png" true.

Definition leather_priceless : Texture :=
  mkTexture "t1" "Leather" (S754_infinity false) "leather.png" true.

(** An order as a caller hands it to [SaveOrder], created [created]
    microseconds after the epoch. *)
Definition order_by (userID : Z) (created : Z) : Order :=
  mkOrder 0 userID 30 20 "t1" "Leather" price_40 price_1_50 price_1_50
          price_1_50 f64_zero f64_zero price_40 price_40 "+100200300" "new"
          (created * 1000) zero_Time.

Definition sample_order : Order := order_by 7 900.

(** Three stored orders: two of user 7, one of user 8. *)
Definition sample_rows : list OrderRow :=
  [ new_order_row 1 (order_by 7 900);
    new_order_row 2 (order_by 8 920);
    new_order_row 3 (order_by 7 950) ].

(** A world at time 1000 with the given tables, an empty cache and both
    services healthy. *)
Definition world_of (rows : list OrderRow) (ts : list Texture) : World :=
  mkWorld 1000 rows (1 + Z.of_nat (length rows)) ts ∅ [] ∅ [].

Definition empty_world : World := world_of [] [].

(** The same world with scripted failures. *)
Definition with_faults (dfs cfs : list (option string)) (w : World) : World :=
  set_cache_faults cfs (set_db_faults dfs w).

(** A world whose cache holds [data] under [key], without expiry. *)
Definition with_cached (key : string) (data : bytes) (w : World) : World :=
  set_cache (<[key := mkEntry data None]> (cache w)) w.

(** ** Further methods of PostgresStorage *)

(** The four columns selected by [GetAvailableTextures], scanned into a
    [Texture]: [in_stock] is not selected and [InStock] keeps its zero
    value. *)
Definition scan_available_texture (t : Texture) : Texture :=
  mkTexture (TexID t) (Name t) (PricePerDM2 t) (ImageURL t) false.

(** [SELECT id::text, name, price_per_dm2, image_url FROM textures
     WHERE in_stock = TRUE], read with [SelectContext]. *)
Definition query_available_textures : M (list Texture * option error) :=
  f <~ db_call ;;
  match f with
  | Some e => ret ([], Some e)
  | None =>
      w <~ get_world ;;
      ret (scan_available_texture <$> filter (λ t, InStock t = true) (textures w),
           None)
  end.

(** [GetAvailableTextures]. *)
Definition GetAvailableTextures : M (list Texture * option error) :=
  '(textures, err) <~ query_available_textures ;;
  match err with
  | Some e => ret ([], Some (Wrap "failed to get textures" e))
  | None => ret (textures, None)
  end.

(** The three columns selected by [GetTextureByName], scanned into a
    [Texture]. *)
Definition scan_named_texture (t : Texture) : Texture :=
  mkTexture (TexID t) (Name t) (PricePerDM2 t) EmptyString false.

(** [SELECT id::text, name, price_per_dm2 FROM textures WHERE name = $1],
    read with [GetContext]. *)
Definition query_texture_by_name (name : string) : M (Texture * option error) :=
  f <~ db_call ;;
  match f with
  | Some e => ret (zero_Texture, Some e)
  | None =>
      w <~ get_world ;;
      match head (filter (λ t, Name t = name) (textures w)) with
      | Some t => ret (scan_named_texture t, None)
      | None => ret (zero_Texture, Some (Sentinel ErrNoRows))
      end
  end.

(** [GetTextureByName]. *)
Definition GetTextureByName (name : string) : M (option Texture * option error) :=
  '(texture, err) <~ query_texture_by_name name ;;
  match err with
  | Some e => ret (None, Some (Wrap "failed to get texture" e))
  | None => ret (Some texture, None)
  end.

(** ** Spreadsheet export *)

(** A value handed to [SetCellValue]. *)
Inductive cell : Type :=
| CInt (n : Z)
| CFloat (x : float64)
| CText (s : string).

(** The calls made to the spreadsheet library and to the file system.  A
    cell is named by its column and row, both counted from 1, the arguments
    of [CoordinatesToCellName]. *)
Inductive io_call : Type :=
| Stat (path : string)
| NewFile
| OpenFile (path : string)
| DeleteSheet (name : string)
| NewSheet (name : string)
| SetCellValue (sheet : string) (col row : Z) (v : cell)
| SetActiveSheet
| MkdirAll (path : string)
| SaveAs (path : string)
| Close.

(** The desk of the exporter: the calls made so far, oldest first, and the
    script of the outcomes of the calls whose error the code looks at
    ([Some msg]: that call fails with [msg]). *)
Record Desk : Type := mkDesk {
  calls : list io_call;
  io_faults : list (option string);
}.

Definition IO (A : Type) : Type := Desk → A * Desk.

Definition io_ret {A} (a : A) : IO A := λ d, (a, d).

Definition io_bind {A B} (m : IO A) (k : A → IO B) : IO B :=
  λ d, let '(a, d') := m d in k a d'.

Notation "x <~~ m ;; k" := (io_bind m (λ x, k))
  (at level 20, m at level 99, k at level 200, only parsing).
Notation "m ;;;; k" := (io_bind m (λ _, k))
  (at level 99, k at level 200, only parsing).

(** A call whose outcome the code ignores. *)
Definition record (c : io_call) : IO unit :=
  λ d, (tt, mkDesk (calls d ++ [c]) (io_faults d)).

(** A call whose error the code checks. *)
Definition attempt (c : io_call) : IO (option error) :=
  λ d, match io_faults d with
       | [] => (None, mkDesk (calls d ++ [c]) [])
       | f :: fs => (Fault <$> f, mkDesk (calls d ++ [c]) fs)
       end.

(** The header row of the sheet "Orders". *)
Definition export_headers : list cell :=
  CText <$> [ "ID"; "User ID"; "Width (cm)"; "Height (cm)"; "Texture ID";
              "Texture Name"; "Price"; "Leather Cost"; "Process Cost";
              "Total Cost"; "Commission"; "Tax"; "Net Revenue"; "Profit";
              "Contact"; "Status"; "Created At" ].

(** [for col, value := range values { cell, _ := CoordinatesToCellName(col+1,
    row); f.SetCellValue(sheet, cell, value) }], from index [col] on. *)
Fixpoint set_cells (sheet : string) (row col : Z) (values : list cell) : IO unit :=
  match values with
  | [] => io_ret tt
  | v :: values' =>
      record (SetCellValue sheet (col + 1) row v) ;;;;
      set_cells sheet row (col + 1) values'
  end.

Section export.
(** [t.Format(layout)] of package [time]. *)
Variable Format : string → Time → string.

(** The slice [data] built for one order. *)
Definition order_cells (order : Order) : list cell :=
  [ CInt (ID order); CInt (UserID order); CInt (WidthCM order);
    CInt (HeightCM order); CText (TextureID order); CText (TextureName order);
    CFloat (Price order); CFloat (LeatherCost order); CFloat (ProcessCost order);
    CFloat (TotalCost order); CFloat (Commission order); CFloat (Tax order);
    CFloat (NetRevenue order); CFloat (Profit order); CText (Contact order);
    CText (Status order); CText (Format "2006-01-02 15:04" (CreatedAt order)) ].

(** [for row, order := range orders { ... CoordinatesToCellName(col+1, row+2)
    ... }], from index [row] on. *)
Fixpoint set_rows (row : Z) (orders : list Order) : IO unit :=
  match orders with
  | [] => io_ret tt
  | order :: orders' =>
      set_cells "Orders" (row + 2) 0 (order_cells order) ;;;;
      set_rows (row + 1) orders'
  end.

(** The rows of [orders o LEFT JOIN textures t ON o.texture_id = t.id] for
    one order: one per matching texture, with its name, or a single one with
    a NULL name. *)
Definition joined_names (ts : list Texture) (r : OrderRow) : list (option string) :=
  match filter (λ t, TexID t = texture_id r) ts with
  | [] => [None]
  | matches => (λ t, Some (Name t)) <$> matches
  end.

(** One joined row scanned into an [Order]; a NULL [texture_name] cannot be
    scanned into a string. *)
Definition scan_joined (r : OrderRow) (name : option string) : option Order :=
  match name with
  | Some n =>
      Some (mkOrder (id r) (user_id r) (width_cm r) (height_cm r) (texture_id r) n
                    (price r) (leather_cost r) (process_cost r) (total_cost r)
                    (commission r) (tax r) (net_revenue r) (profit r) (contact r)
                    (status r) (created_at r) zero_Time)
  | None => None
  end.

(** [SELECT o.*, t.name as texture_name FROM orders o LEFT JOIN textures t
     ON o.texture_id = t.id ORDER BY o.created_at DESC], read with
    [SelectContext] into a slice of [Order]. *)
Definition query_orders_with_textures : M (list Order * option error) :=
  f <~ db_call ;;
  match f with
  | Some e => ret ([], Some e)
  | None =>
      match sqlx_missing_destination (orders_columns ++ ["texture_name"])
                                     Order_db_tags with
      | Some column =>
          ret ([], Some (missing_destination_error column "*[]postgres.Order"))
      | None =>
          w <~ get_world ;;
          match mapM (λ r, mapM (scan_joined r) (joined_names (textures w) r))
                     (merge_sort newer_first (orders w)) with
          | Some found => ret (concat found, None)
          | None =>
              ret ([], Some (Fault "sql: Scan error on column texture_name: converting NULL to string is unsupported"))
          end
      end
  end.

(** [ExportAllOrdersToExcel]; the deferred [f.Close()] runs at every return
    that follows [NewFile]. *)
Definition ExportAllOrdersToExcel (filename : string) (w : World) (d : Desk)
  : option error * World * Desk :=
  let '((orders, err), w') := query_orders_with_textures w in
  match err with
  | Some e => (Some (Wrap "failed to fetch orders" e), w', d)
  | None =>
      let '(r, d') :=
        (record NewFile ;;;;
         err <~~ attempt (NewSheet "Orders") ;;
         match err with
         | Some e => io_ret (Some (Wrap "failed to create sheet" e))
         | None =>
             set_cells "Orders" 1 0 export_headers ;;;;
             set_rows 0 orders ;;;;
             record SetActiveSheet ;;;;
             err <~~ attempt (MkdirAll "reports") ;;
             match err with
             | Some e => io_ret (Some (Wrap "failed to create reports directory" e))
             | None =>
                 err <~~ attempt (SaveAs ("reports/" +:+ filename +:+ ".xlsx")) ;;
                 match err with
                 | Some e => io_ret (Some (Wrap "failed to save Excel file" e))
                 | None => io_ret None
                 end
             end
         end) d in
      (r, w', (record Close d').2)
  end.

(** [SELECT * FROM orders ORDER BY created_at DESC], read with
    [SelectContext] into a slice of [Order]. *)
Definition query_all_orders : M (list Order * option error) :=
  f <~ db_call ;;
  match f with
  | Some e => ret ([], Some e)
  | None =>
      match sqlx_missing_destination orders_columns Order_db_tags with
      | Some column =>
          ret ([], Some (missing_destination_error column "*[]postgres.Order"))
      | None =>
          w <~ get_world ;;
          ret (scan_order <$> merge_sort newer_first (orders w), None)
      end
  end.

(** [UpdateOrderStatus].  Neither [orderID] nor [status] is used by the
    body; the workbook is never closed. *)
Definition UpdateOrderStatus (orderID : Z) (status : string) (w : World) (d : Desk)
  : option error * World * Desk :=
  let '((orders, err), w') := query_all_orders w in
  match err with
  | Some e => (Some (Wrap "failed to fetch orders" e), w', d)
  | None =>
      let filename := "reports/current_orders.xlsx" in
      let '(r, d') :=
        (record NewFile ;;;;
         missing <~~ attempt (Stat filename) ;;
         opened <~~
           match missing with
           | None =>
               err <~~ attempt (OpenFile filename) ;;
               match err with
               | Some e => io_ret (Some (Wrap "failed to open existing file" e))
               | None =>
                   err <~~ attempt (DeleteSheet "Orders") ;;
                   match err with
                   | Some e => io_ret (Some (Wrap "failed to clear old sheet" e))
                   | None => io_ret None
                   end
               end
           | Some _ => io_ret None
           end ;;
         match opened with
         | Some e => io_ret (Some e)
         | None =>
         err <~~ attempt (NewSheet "Orders") ;;
         match err with
         | Some e => io_ret (Some (Wrap "failed to create sheet" e))
         | None =>
             set_cells "Orders" 1 0 export_headers ;;;;
             set_rows 0 orders ;;;;
             record SetActiveSheet ;;;;
             err <~~ attempt (MkdirAll "reports") ;;
             match err with
             | Some e => io_ret (Some (Wrap "failed to create reports directory" e))
             | None =>
                 err <~~ attempt (SaveAs ("reports/" +:+ filename +:+ ".xlsx")) ;;
                 match err with
                 | Some e => io_ret (Some (Wrap "failed to save Excel file" e))
                 | None =>
                     err <~~ attempt (MkdirAll "reports") ;;
                     match err with
                     | Some e =>
                         io_ret (Some (Wrap "failed to create reports directory" e))
                     | None => attempt (SaveAs filename)
                     end
                 end
             end
         end
         end) d in
      (r, w', d')
  end.
End export.

(** ** Sessions *)

(** The calls a client of the storage can make, the passage of time, and
    the environment choosing which of the coming service calls fail. *)
Inductive call : Type :=
| DoGetUserOrders (userID : Z)
| DoDeleteUserData (chatID : Z)
| DoGetTextureByID (textureID : string)
| DoGetAvailableTextures
| DoGetTextureByName (name : string)
| DoSaveOrder (order : Order)
| DoSaveUserAgreement (userID : Z) (phone : string)
| DoGetUserAgreement (userID : Z)
| DoGetOrderByID (orderID : Z)
| DoGetOrderStatistics
| DoCheckRateLimit (userID : Z) (action : string) (limit : Z) (window : Duration)
| Wait (d : Duration)
| Script (dfs cfs : list (option string)).

(** The world after one call. *)
Definition perform (c : call) (w : World) : World :=
  match c with
  | DoGetUserOrders userID => after (GetUserOrders userID) w
  | DoDeleteUserData chatID => after (DeleteUserData chatID) w
  | DoGetTextureByID textureID => after (GetTextureByID textureID) w
  | DoGetAvailableTextures => after GetAvailableTextures w
  | DoGetTextureByName name => after (GetTextureByName name) w
  | DoSaveOrder order => after (SaveOrder order) w
  | DoSaveUserAgreement userID phone => after (SaveUserAgreement userID phone) w
  | DoGetUserAgreement userID => after (GetUserAgreement userID) w
  | DoGetOrderByID orderID => after (GetOrderByID orderID) w
  | DoGetOrderStatistics => after GetOrderStatistics w
  | DoCheckRateLimit userID action limit window =>
      after (CheckRateLimit userID action limit window) w
  | Wait d => elapse d w
  | Script dfs cfs => set_cache_faults cfs (set_db_faults dfs w)
  end.

(** The world after a sequence of calls. *)
Definition session (cs : list call) (w : World) : World :=
  foldl (λ w c, perform c w) w cs.

(** [m] relates every world to the world it leaves by [R]. *)
Definition preserves {A} (R : relation World) (m : M A) : Prop :=
  ∀ w, R w (after m w).

(** [same_except u o K w w']: from [w] to [w'] the textures are the same,
    the users are the same unless [u], the orders and their sequence are the
    same unless [o], and the cache is the same at every key outside [K]. *)
Definition same_except (u o : bool) (K : string → Prop) : relation World :=
  λ w w',
    textures w' = textures w ∧
    (u = false → users w' = users w) ∧
    (o = false → orders w' = orders w ∧ next_order_id w' = next_order_id w) ∧
    (∀ k, ¬ K k → cache w' !! k = cache w !! k).

(** No key at all. *)
Definition no_key : string → Prop := λ _, False.

(** The tables and the cache key that a call may write. *)
Definition writes_users (c : call) : bool :=
  match c with
  | DoSaveUserAgreement _ _ => true
  | _ => false
  end.

Definition writes_orders (c : call) : bool :=
  match c with
  | DoSaveOrder _ | DoDeleteUserData _ => true
  | _ => false
  end.

Definition call_keys (c : call) : string → Prop :=
  match c with
  | DoGetTextureByID textureID => λ k, k = texture_cache_key textureID
  | DoSaveOrder _ | DoGetOrderStatistics => λ k, k = "order_stats"
  | DoCheckRateLimit userID action _ _ => λ k, k = ratelimit_key userID action
  | _ => no_key
  end.

(** Every stored agreement is a given consent. *)
Definition all_agreed (w : World) : Prop :=
  ∀ userID row, users w !! userID = Some row → agreed_to_tpa row = true.

(** Orders are only ever added or stamped: [w'] holds the rows of [w] in
    place, unchanged in every column but [deleted_at] and still stamped if
    they were, followed by rows whose ids the sequence issued in between. *)
Definition orders_grow (w w' : World) : Prop :=
  next_order_id w ≤ next_order_id w' ∧
  ∃ new,
    scan_order <$> orders w' = (scan_order <$> orders w) ++ new ∧
    Forall (λ o, next_order_id w ≤ ID o < next_order_id w') new ∧
    ∀ i r r',
      orders w !! i = Some r → orders w' !! i = Some r' →
      is_Some (deleted_at r) → is_Some (deleted_at r').

(** A texture entry as [GetTextureByID] writes it: the serialised texture
    of that id, with a price that passes validation, and an expiry. *)
Definition valid_texture_entry (textureID : string) (en : Entry) : Prop :=
  ∃ t x,
    en = mkEntry (JTexture t) (Some x) ∧ TexID t = textureID ∧
    f64_le_zero (PricePerDM2 t) = false ∧ f64_is_finite (PricePerDM2 t) = true.

(** Every texture entry of the cache is one that [GetTextureByID] wrote. *)
Definition cached_textures_valid (w : World) : Prop :=
  ∀ textureID en,
    cache w !! texture_cache_key textureID = Some en →
    valid_texture_entry textureID en.

(** The sum of the counts of a status map. *)
Definition sum_counts (m : gmap string Z) : Z :=
  map_fold (λ _ n acc, n + acc) 0 m.

(** The number of rows with status [st]. *)
Definition count_status (st : string) (rows : list OrderRow) : Z :=
  Z.of_nat (length (filter (λ r, status r = st) rows)).

(** * Properties *)

(** ** Cache client *)

Lemma cache_call_healthy w : cache_faults w = [] → cache_call w = (None, w).
Proof. unfold cache_call. by intros ->. Qed.

Lemma live_Some t o en :
  live t o = Some en ↔
  o = Some en ∧ match expires_at en with Some x => t < x | None => True end.
Proof.
  unfold live. destruct o as [e|]; [|split; [done|by intros [? _]]].
  destruct (expires_at e) as [x|] eqn:Hx.
  - case_bool_decide as Ht; split.
    + intros [= <-]. by rewrite Hx.
    + by intros [[= <-] _].
    + done.
    + intros [[= <-] Hlt]. by rewrite Hx in Hlt.
  - split.
    + intros [= <-]. by rewrite Hx.
    + by intros [[= <-] _].
Qed.

Lemma live_None t o :
  live t o = None ↔
  o = None ∨ ∃ en x, o = Some en ∧ expires_at en = Some x ∧ x ≤ t.
Proof.
  unfold live. destruct o as [e|]; [|by split; [left|]].
  destruct (expires_at e) as [x|] eqn:Hx.
  - case_bool_decide as Ht; split.
    + done.
    + intros [|(e' & x' & [= <-] & Hx' & Hle)]; [done|]. simplify_eq. lia.
    + intros _. right. exists e, x. split_and!; [done..|lia].
    + done.
  - split; [done|].
    intros [|(e' & x' & [= <-] & Hx' & Hle)]; [done|]. congruence.
Qed.

Lemma redis_Get_healthy w key :
  cache_faults w = [] →
  redis_Get key w =
    (match live (now w) (cache w !! key) with
     | Some en => (value en, None)
     | None => (nil_bytes, Some (Sentinel RedisNil))
     end, w).
Proof.
  intros Hf. unfold redis_Get, bind. rewrite cache_call_healthy by done.
  cbn [get_world]. by destruct (live _ _).
Qed.

Lemma redis_Set_healthy w key data ttl :
  cache_faults w = [] →
  redis_Set key data ttl w =
    (None, set_cache (<[key := mkEntry data (Some (now w + ttl))]> (cache w)) w).
Proof. intros Hf. unfold redis_Set, bind. by rewrite cache_call_healthy. Qed.

Lemma redis_Del_healthy w key :
  cache_faults w = [] →
  redis_Del key w = (None, set_cache (delete key (cache w)) w).
Proof. intros Hf. unfold redis_Del, bind. by rewrite cache_call_healthy. Qed.

Lemma redis_Incr_healthy w key n x :
  cache_faults w = [] →
  counter_at w key = Some (n, x) →
  n < max_int64 →
  redis_Incr key w =
    ((n + 1, None), set_cache (<[key := mkEntry (JInt (n + 1)) x]> (cache w)) w).
Proof.
  intros Hf Hc Hn. unfold redis_Incr, bind. rewrite cache_call_healthy by done.
  cbn [get_world]. unfold counter_at in Hc.
  destruct (live (now w) (cache w !! key)) as [en|]; [|by simplify_eq].
  destruct (value en); simplify_eq. by rewrite bool_decide_true.
Qed.

Lemma redis_Expire_healthy w key en window :
  cache_faults w = [] →
  live (now w) (cache w !! key) = Some en →
  redis_Expire key window w =
    ((true, None),
     set_cache (<[key := mkEntry (value en) (Some (now w + window))]> (cache w)) w).
Proof.
  intros Hf Hl. unfold redis_Expire, bind. rewrite cache_call_healthy by done.
  cbn [get_world]. by rewrite Hl.
Qed.

(** An increment leaves the counter live: it keeps the expiry it had. *)
Lemma counter_at_live_after_incr w key n x c :
  counter_at w key = Some (n, x) →
  live (now w) (Some (mkEntry (JInt c) x)) = Some (mkEntry (JInt c) x).
Proof.
  unfold counter_at. intros Hc. apply live_Some. split; [done|]. simpl.
  destruct (live (now w) (cache w !! key)) as [en|] eqn:Hl; [|by simplify_eq].
  apply live_Some in Hl as [_ Hl]. destruct (value en); simplify_eq. done.
Qed.

(** ** The counter key identifies the pair (userID, action) *)

Lemma pretty_N_char_colon_free d : Ascii.eqb (pretty_N_char d) ":"%char = false.
Proof.
  unfold pretty_N_char. destruct d as [|p]; [done|].
  do 4 (destruct p as [p|p|]; try done).
Qed.

Lemma pretty_N_go_colon_free x : ∀ s,
  colon_free s = true → colon_free (pretty_N_go x s) = true.
Proof.
  induction (N.lt_wf_0 x) as [x _ IH]; intros s Hs.
  destruct (decide (x = 0)%N) as [->|Hx]; [by rewrite pretty_N_go_0|].
  rewrite pretty_N_go_step by lia. apply IH.
  - apply N.div_lt; lia.
  - cbn [colon_free]. by rewrite pretty_N_char_colon_free.
Qed.

Lemma pretty_Z_colon_free (z : Z) : colon_free (pretty z) = true.
Proof.
  unfold pretty, pretty_Z, pretty, pretty_positive, pretty, pretty_N.
  destruct z as [|p|p]; [done| |]; cbn -[pretty_N_go];
    by apply pretty_N_go_colon_free.
Qed.

(** Two texts without [':'] followed by [':'] and a rest agree only when
    they are the same text followed by the same rest. *)
Lemma colon_split a1 : ∀ a2 b1 b2,
  colon_free a1 = true → colon_free a2 = true →
  a1 +:+ ":" +:+ b1 = a2 +:+ ":" +:+ b2 → a1 = a2 ∧ b1 = b2.
Proof.
  induction a1 as [|c a1 IH]; intros [|c' a2] b1 b2 H1 H2 Heq; simpl in *.
  - by simplify_eq.
  - injection Heq as <- _. by rewrite Ascii.eqb_refl in H2.
  - injection Heq as -> _. by rewrite Ascii.eqb_refl in H1.
  - injection Heq as -> Heq.
    apply andb_prop in H1 as [_ H1], H2 as [_ H2].
    destruct (IH a2 b1 b2 H1 H2 Heq) as [-> ->]. done.
Qed.

(** Distinct pairs (userID, action) have distinct counters. *)
Lemma ratelimit_key_inj userID1 action1 userID2 action2 :
  ratelimit_key userID1 action1 = ratelimit_key userID2 action2 →
  userID1 = userID2 ∧ action1 = action2.
Proof.
  unfold ratelimit_key. intros Heq.
  apply (inj (String.append "ratelimit:")) in Heq.
  apply colon_split in Heq as [Hu ->]; [|apply pretty_Z_colon_free..].
  split; [|done]. by apply (inj pretty).
Qed.

(** ** Rate limiter *)

Section rate_limiter.
Variables (userID : Z) (action : string) (limit : Z) (window : Duration).

Let key := ratelimit_key userID action.

(** One call against a responsive cache. *)
Lemma CheckRateLimit_step w n x :
  cache_faults w = [] →
  counter_at w key = Some (n, x) →
  n < max_int64 →
  CheckRateLimit userID action limit window w =
    ((bool_decide (limit < n + 1), None),
     set_cache (<[key := mkEntry (JInt (n + 1))
                           (if bool_decide (n + 1 = 1)
                            then Some (now w + window) else x)]> (cache w)) w).
Proof.
  intros Hf Hc Hn.
  unfold CheckRateLimit, bind. fold key.
  rewrite (redis_Incr_healthy w key n x) by done.
  case_bool_decide as H1; [|done].
  erewrite redis_Expire_healthy; [| done |].
  2:{ cbn [set_cache cache now]. rewrite lookup_insert_eq.
      by eapply counter_at_live_after_incr. }
  cbn [set_cache cache now value ret]. by rewrite insert_insert_eq.
Qed.

(** Further calls while the window opened at the first call lasts. *)
Lemma CheckRateLimit_run_open ds : ∀ w k x,
  cache_faults w = [] →
  cache w !! key = Some (mkEntry (JInt k) (Some x)) →
  1 ≤ k →
  Forall (λ d, 0 ≤ d) ds →
  now w + total ds < x →
  k + Z.of_nat (length ds) ≤ max_int64 →
  result (run_calls (CheckRateLimit userID action limit window) ds) w
  = verdicts limit k (length ds).
Proof.
  induction ds as [|d ds IH]; intros w k x Hf Hk Hk1 Hds Hx Hmax; [done|].
  apply Forall_cons in Hds as [Hd Hds]. cbn [total foldr] in Hx.
  assert (0 ≤ total ds) as Htot.
  { clear -Hds. induction Hds; cbn [total foldr]; [done|]. unfold total in *. lia. }
  cbn [length] in Hmax. rewrite Nat2Z.inj_succ in Hmax.
  unfold result. cbn [run_calls]. unfold bind at 1. cbn [modify].
  unfold bind at 1.
  rewrite (CheckRateLimit_step (elapse d w) k (Some x)); cbn [elapse cache_faults]; try done; [| |lia].
  - rewrite (bool_decide_false (k + 1 = 1)) by lia. unfold bind, ret.
    specialize (IH (set_cache (<[key:=mkEntry (JInt (k + 1)) (Some x)]> (cache w)) (elapse d w))
                   (k + 1) x).
    unfold result in IH.
    destruct (run_calls _ ds _) as [rest w'] eqn:Hrun. cbn [fst verdicts length].
    f_equal. cbn [fst] in IH. apply IH; cbn [set_cache elapse cache_faults cache now]; try done.
    + apply lookup_insert_eq.
    + lia.
    + unfold total in *. lia.
    + lia.
  - unfold counter_at, elapse. cbn [now cache]. rewrite Hk. cbn [live expires_at].
    unfold total in *. rewrite bool_decide_true by lia. done.
Qed.

(** Calls from a moment at which no window is open: the first call opens
    one of length [window], the following ones fall inside it. *)
Lemma CheckRateLimit_run_fresh w d ds :
  cache_faults w = [] →
  live (now w + d) (cache w !! key) = None →
  Forall (λ d, 0 ≤ d) ds →
  total ds < window →
  Z.of_nat (length ds) < max_int64 →
  result (run_calls (CheckRateLimit userID action limit window) (d :: ds)) w
  = verdicts limit 0 (S (length ds)).
Proof.
  intros Hf Hl Hds Htot Hmax.
  unfold result. cbn [run_calls]. unfold bind at 1. cbn [modify].
  unfold bind at 1.
  rewrite (CheckRateLimit_step (elapse d w) 0 None); cbn [elapse cache_faults]; try done.
  - rewrite (bool_decide_true (0 + 1 = 1)) by done. unfold bind, ret.
    pose proof (CheckRateLimit_run_open ds
      (set_cache (<[key:=mkEntry (JInt (0 + 1)) (Some (now w + d + window))]> (cache w))
                 (elapse d w)) 1 (now w + d + window)) as IH.
    unfold result in IH.
    destruct (run_calls _ ds _) as [rest w'] eqn:Hrun. cbn [fst verdicts].
    f_equal. cbn [fst] in IH. apply IH; cbn [set_cache elapse cache_faults cache now]; try done.
    + apply lookup_insert_eq.
    + unfold total in *. lia.
    + lia.
  - unfold counter_at, elapse. cbn [now cache]. by rewrite Hl.
Qed.
End rate_limiter.

Lemma verdicts_below limit n : ∀ k,
  k + Z.of_nat n ≤ limit → verdicts limit k n = replicate n (false, None).
Proof.
  induction n as [|n IH]; intros k Hk; [done|].
  cbn [verdicts replicate]. rewrite bool_decide_false by lia.
  f_equal. apply IH. lia.
Qed.

Lemma verdicts_app limit n1 n2 : ∀ k,
  verdicts limit k (n1 + n2)
  = verdicts limit k n1 ++ verdicts limit (k + Z.of_nat n1) n2.
Proof.
  induction n1 as [|n1 IH]; intros k.
  - cbn. by rewrite Z.add_0_r.
  - cbn [Nat.add verdicts app]. f_equal. rewrite IH. do 2 f_equal. lia.
Qed.

(** With [limit = N], [N + 1] calls yield [N] times [false], then [true]. *)
Lemma verdicts_limit limit :
  0 ≤ limit →
  verdicts limit 0 (S (Z.to_nat limit))
  = replicate (Z.to_nat limit) (false, None) ++ [(true, None)].
Proof.
  intros Hl. replace (S (Z.to_nat limit)) with (Z.to_nat limit + 1)%nat by lia.
  rewrite verdicts_app, verdicts_below by lia.
  f_equal. cbn [verdicts]. by rewrite bool_decide_true by lia.
Qed.

(** C2. [CheckRateLimit] increments the counter whose key stands for the
    pair [(userID, action)] and for no other pair, sets the key's expiry to
    [window] exactly when the count after the increment is 1, and answers
    [true] exactly when that count is strictly above [limit]; hence, with
    [limit = N], the first [N] calls of a window answer [false] and call
    [N + 1] answers [true]. *)
Theorem CheckRateLimit_fixed_window userID action limit window :
  let key := ratelimit_key userID action in
  (∀ userID' action',
     ratelimit_key userID' action' = key →
     userID' = userID ∧ action' = action) ∧
  (∀ w n x,
     cache_faults w = [] →
     counter_at w key = Some (n, x) →
     n < max_int64 →
     result (CheckRateLimit userID action limit window) w
     = (bool_decide (limit < n + 1), None) ∧
     after (CheckRateLimit userID action limit window) w
     = set_cache (<[key := mkEntry (JInt (n + 1))
                            (if bool_decide (n + 1 = 1)
                             then Some (now w + window) else x)]> (cache w)) w) ∧
  (∀ w d ds,
     cache_faults w = [] →
     live (now w + d) (cache w !! key) = None →
     Forall (λ d, 0 ≤ d) ds →
     total ds < window →
     0 ≤ limit < max_int64 →
     length ds = Z.to_nat limit →
     result (run_calls (CheckRateLimit userID action limit window) (d :: ds)) w
     = replicate (Z.to_nat limit) (false, None) ++ [(true, None)]).
Proof.
  intros key. split_and!.
  - intros userID' action'. apply ratelimit_key_inj.
  - intros w n x Hf Hc Hn. unfold result, after.
    by rewrite (CheckRateLimit_step userID action limit window w n x).
  - intros w d ds Hf Hl Hds Htot Hlim Hlen.
    rewrite CheckRateLimit_run_fresh; [|done..|rewrite Hlen; lia].
    rewrite Hlen. apply verdicts_limit. lia.
Qed.

Section rate_limiter_reset.
Variables (userID : Z) (action : string) (limit : Z) (window : Duration).

(** Once the expiry of the counter has passed, the next call starts a new
    window: it answers as a first call and sets a new expiry. *)
Lemma CheckRateLimit_after_expiry w en x :
  cache_faults w = [] →
  cache w !! ratelimit_key userID action = Some en →
  expires_at en = Some x →
  x ≤ now w →
  CheckRateLimit userID action limit window w =
    ((bool_decide (limit < 1), None),
     set_cache (<[ratelimit_key userID action
                  := mkEntry (JInt 1) (Some (now w + window))]> (cache w)) w).
Proof.
  intros Hf Hk Hx Hle.
  rewrite (CheckRateLimit_step userID action limit window w 0 None); [done..| |done].
  unfold counter_at. rewrite Hk. cbn [live]. rewrite Hx.
  by rewrite bool_decide_false by lia.
Qed.

(** A call of one pair leaves the counter of every other pair alone. *)
Lemma CheckRateLimit_other_counter w n x userID' action' :
  cache_faults w = [] →
  counter_at w (ratelimit_key userID action) = Some (n, x) →
  n < max_int64 →
  (userID', action') ≠ (userID, action) →
  cache (after (CheckRateLimit userID action limit window) w)
    !! ratelimit_key userID' action'
  = cache w !! ratelimit_key userID' action'.
Proof.
  intros Hf Hc Hn Hne. unfold after.
  rewrite (CheckRateLimit_step userID action limit window w n x) by done.
  cbn [snd set_cache cache]. apply lookup_insert_ne.
  intros [-> ->]%ratelimit_key_inj. done.
Qed.
End rate_limiter_reset.

(** With [limit = 3]: four calls inside the window, then a fifth one after
    the window has elapsed. *)
Example CheckRateLimit_five_calls :
  result (run_calls (CheckRateLimit 7 "order" 3 Hour) [0; 1; 1; 1; Hour]) empty_world
  = [(false, None); (false, None); (false, None); (true, None); (false, None)].
Proof. by vm_compute. Qed.

(** ** Frame properties of the service calls *)

Lemma redis_Get_after key w :
  after (redis_Get key) w = set_cache_faults (tail (cache_faults w)) w.
Proof.
  unfold after, redis_Get, bind, cache_call. destruct w as [t os n ts us dfs c cfs].
  cbn [cache_faults]. destruct cfs as [|[msg|] cfs]; cbn.
  - by destruct (live t (c !! key)).
  - done.
  - by destruct (live t (c !! key)).
Qed.

Lemma db_call_after w : (db_call w).2 = set_db_faults (tail (db_faults w)) w.
Proof.
  unfold db_call. destruct w as [t os n ts us dfs c cfs].
  cbn [db_faults]. by destruct dfs as [|[msg|] dfs].
Qed.

Lemma db_call_result w :
  (db_call w).1 = match db_faults w with Some msg :: _ => Some (Fault msg) | _ => None end.
Proof. unfold db_call. by destruct (db_faults w) as [|[msg|] dfs]. Qed.

Lemma query_texture_by_id_after textureID w :
  after (query_texture_by_id textureID) w = set_db_faults (tail (db_faults w)) w.
Proof.
  unfold after, query_texture_by_id, bind.
  pose proof (db_call_after w) as Ha. destruct (db_call w) as [[e|] w1]; cbn in *.
  - done.
  - subst w1. by destruct (head _).
Qed.

(** ** Textures *)

Lemma f64_gt_zero_not_le_zero x : f64_gt_zero x = true → f64_le_zero x = false.
Proof. by destruct x as [[]|[]| |[] m e]. Qed.

(** The two ways a call of [GetTextureByID] goes. *)
Lemma GetTextureByID_dispatch textureID w :
  GetTextureByID textureID w =
    match cached_texture textureID w with
    | Some t => ((Some t, None), after (redis_Get (texture_cache_key textureID)) w)
    | None => GetTextureByID_fallback textureID
                (after (redis_Get (texture_cache_key textureID)) w)
    end.
Proof.
  unfold GetTextureByID, cached_texture, bind, result, after.
  destruct (redis_Get _ w) as [[data [e|]] w1]; cbn [fst snd]; [done|].
  destruct (json_Unmarshal_Texture data) as [t|]; [|done].
  by destruct (f64_le_zero (PricePerDM2 t)).
Qed.

(** The store path, by cases on what the store returns. *)
Lemma GetTextureByID_fallback_invalid textureID w t :
  result (query_texture_by_id textureID) w = (t, None) →
  f64_le_zero (PricePerDM2 t) = true →
  GetTextureByID_fallback textureID w =
    ((None, Some (New ("invalid price for texture " +:+ textureID +:+ ": "
                         +:+ fmt_f2 (PricePerDM2 t)))),
     after (query_texture_by_id textureID) w).
Proof.
  unfold GetTextureByID_fallback, bind, result, after.
  destruct (query_texture_by_id _ w) as [[t' e] w1]; cbn [fst snd].
  intros [= -> ->] Hle. by rewrite Hle.
Qed.

Lemma GetTextureByID_fallback_valid textureID w t :
  result (query_texture_by_id textureID) w = (t, None) →
  f64_le_zero (PricePerDM2 t) = false →
  GetTextureByID_fallback textureID w =
    ((Some t, None),
     match json_Marshal_Texture t with
     | Some data =>
         after (redis_Set (texture_cache_key textureID) data (24 * Hour))
               (after (query_texture_by_id textureID) w)
     | None => after (query_texture_by_id textureID) w
     end).
Proof.
  unfold GetTextureByID_fallback, bind, result, after.
  destruct (query_texture_by_id _ w) as [[t' e] w1]; cbn [fst snd].
  intros [= -> ->] Hle. rewrite Hle.
  destruct (json_Marshal_Texture t) as [data|]; [|done].
  by destruct (redis_Set _ data _ w1).
Qed.

Lemma redis_Set_served key data ttl w :
  served (cache_faults w) →
  cache (after (redis_Set key data ttl) w)
  = <[key := mkEntry data (Some (now w + ttl))]> (cache w).
Proof.
  unfold after, redis_Set, bind, cache_call, served.
  destruct w as [t os n ts us dfs c cfs]. cbn [cache_faults].
  by destruct cfs as [|[msg|] cfs].
Qed.

(** C1 (amended). In [GetTextureByID], a cached texture whose price is not
    strictly positive is not returned: the call goes on to the store as for a
    miss.  A texture read from the store with price <= 0 makes the call
    return an error and leaves the cache as it was.  A texture read from the
    store with price > 0 is returned, and it is written to the cache with a
    24-hour time-to-live when its price is finite (so that it serialises)
    and the cache accepts the write. *)
Theorem GetTextureByID_validation textureID w :
  let key := texture_cache_key textureID in
  let w1 := after (redis_Get key) w in
  let w2 := after (query_texture_by_id textureID) w1 in
  (∀ data t,
     result (redis_Get key) w = (data, None) →
     json_Unmarshal_Texture data = Some t →
     f64_le_zero (PricePerDM2 t) = true →
     GetTextureByID textureID w = GetTextureByID_fallback textureID w1) ∧
  (∀ t,
     cached_texture textureID w = None →
     result (query_texture_by_id textureID) w1 = (t, None) →
     (f64_le_zero (PricePerDM2 t) = true →
      GetTextureByID textureID w =
        ((None, Some (New ("invalid price for texture " +:+ textureID +:+ ": "
                             +:+ fmt_f2 (PricePerDM2 t)))), w2) ∧
      cache w2 = cache w) ∧
     (f64_gt_zero (PricePerDM2 t) = true →
      result (GetTextureByID textureID) w = (Some t, None) ∧
      (f64_is_finite (PricePerDM2 t) = true →
       served (cache_faults w2) →
       cache (after (GetTextureByID textureID) w)
       = <[key := mkEntry (JTexture t) (Some (now w + 24 * Hour))]> (cache w)))).
Proof.
  intros key w1 w2. split.
  - intros data t Hget Hdec Hle. rewrite GetTextureByID_dispatch.
    unfold cached_texture. fold key. by rewrite Hget, Hdec, Hle.
  - intros t Hmiss Hq. split.
    + intros Hle. rewrite GetTextureByID_dispatch, Hmiss. fold key w1.
      split; [by apply GetTextureByID_fallback_invalid|].
      unfold w2, w1. by rewrite query_texture_by_id_after, redis_Get_after.
    + intros Hgt. apply f64_gt_zero_not_le_zero in Hgt as Hle.
      unfold result, after. rewrite GetTextureByID_dispatch, Hmiss. fold key w1.
      rewrite (GetTextureByID_fallback_valid _ _ t) by done.
      split; [done|]. intros Hfin Hserved. cbn [snd].
      unfold json_Marshal_Texture. rewrite Hfin. fold key w2.
      rewrite redis_Set_served by done.
      unfold w2, w1. by rewrite query_texture_by_id_after, redis_Get_after.
Qed.

(** ** Statistics *)

Lemma fill_status_counts_union (l : list (string * Z)) : ∀ m0 : gmap string Z,
  NoDup (l.*1) →
  foldl (λ m sc, <[sc.1 := sc.2]> m) m0 l = list_to_map l ∪ m0.
Proof.
  induction l as [|[k v] l IH]; intros m0 Hnd; cbn [foldl list_to_map foldr fst snd].
  - by rewrite (left_id_L ∅ (∪)).
  - rewrite fmap_cons in Hnd. apply NoDup_cons in Hnd as [Hk Hnd].
    rewrite IH by done. rewrite <-insert_union_l. symmetry.
    apply insert_union_r. by apply not_elem_of_list_to_map_1.
Qed.

(** Filling a fresh map from the grouped rows rebuilds the grouping. *)
Lemma fill_status_counts_map_to_list (m : gmap string Z) :
  fill_status_counts (map_to_list m) = m.
Proof.
  unfold fill_status_counts. rewrite fill_status_counts_union.
  - by rewrite (right_id_L ∅ (∪)), list_to_map_to_list.
  - apply NoDup_fst_map_to_list.
Qed.

Lemma query_count_revenue_run since w :
  query_count_revenue since w =
    let rows := match since with
                | None => orders w
                | Some back => rows_since (now w) back (orders w)
                end in
    (match db_faults w with
     | Some msg :: _ => (0, f64_zero, Some (Fault msg))
     | _ => (Z.of_nat (length rows), sum_price rows, None)
     end, set_db_faults (tail (db_faults w)) w).
Proof.
  unfold query_count_revenue, bind, db_call. destruct w as [t os n ts us dfs c cfs].
  cbn [db_faults]. by destruct dfs as [|[msg|] dfs].
Qed.

Lemma query_status_counts_run w :
  query_status_counts w =
    (match db_faults w with
     | Some msg :: _ => ([], Some (Fault msg))
     | _ => (map_to_list (count_by_status (orders w)), None)
     end, set_db_faults (tail (db_faults w)) w).
Proof.
  unfold query_status_counts, bind, db_call. destruct w as [t os n ts us dfs c cfs].
  cbn [db_faults]. by destruct dfs as [|[msg|] dfs].
Qed.

Ltac next_query :=
  unfold bind at 1;
  first [rewrite query_count_revenue_run | rewrite query_status_counts_run];
  cbn [db_faults set_db_faults now orders tail];
  cbv zeta.

(** When the five queries run, the assembled value is [statistics_of];
    the cache is then populated if the value serialises. *)
Lemma GetOrderStatistics_compute_served w :
  all_served 5 (db_faults w) = true →
  GetOrderStatistics_compute w =
    let stats := statistics_of (now w) (orders w) in
    let w5 := set_db_faults (drop 5 (db_faults w)) w in
    ((Some stats, None),
     match json_Marshal_OrderStatistics stats with
     | Some data => after (redis_Set "order_stats" data (1 * Hour)) w5
     | None => w5
     end).
Proof.
  intros Hs. unfold GetOrderStatistics_compute.
  destruct w as [t os n ts us dfs c cfs]. cbn [db_faults] in Hs.
  unfold all_served in Hs.
  do 5 (next_query;
        match goal with
        | H : _ |- context [match ?l with _ => _ end] =>
            is_var l; destruct l as [|[?|] ?]; try discriminate Hs
        | _ => idtac
        end; cbn [tail]).
  all: rewrite fill_status_counts_map_to_list.
  all: cbv zeta; cbn [now orders db_faults drop set_db_faults]; unfold statistics_of.
  all: unfold ret, after; destruct (json_Marshal_OrderStatistics _);
    [unfold bind; destruct (redis_Set _ _ _ _)|]; reflexivity.
Qed.

(** When one of the five queries fails, the call returns only an error. *)
Lemma GetOrderStatistics_compute_failed w :
  all_served 5 (db_faults w) = false →
  ∃ e, result GetOrderStatistics_compute w = (None, Some e).
Proof.
  intros Hs. unfold result, GetOrderStatistics_compute.
  destruct w as [t os n ts us dfs c cfs]. cbn [db_faults] in Hs.
  unfold all_served in Hs.
  do 5 (try (next_query;
        match goal with
        | H : _ |- context [match ?l with _ => _ end] =>
            is_var l; destruct l as [|[?|] ?]; try discriminate Hs
        end; cbn [tail]; try (eexists; reflexivity))).
Qed.

Lemma GetOrderStatistics_dispatch w :
  GetOrderStatistics w =
    match cached_statistics w with
    | Some stats => ((Some stats, None), after (redis_Get "order_stats") w)
    | None => GetOrderStatistics_compute (after (redis_Get "order_stats") w)
    end.
Proof.
  unfold GetOrderStatistics, cached_statistics, bind, result, after.
  destruct (redis_Get _ w) as [[data [e|]] w1]; cbn [fst snd]; [done|].
  by destruct (json_Unmarshal_OrderStatistics data).
Qed.

Lemma redis_Set_refused key data ttl w :
  ¬ served (cache_faults w) →
  cache (after (redis_Set key data ttl) w) = cache w.
Proof.
  unfold after, redis_Set, bind, cache_call, served.
  destruct w as [t os n ts us dfs c cfs]. cbn [cache_faults].
  by destruct cfs as [|[msg|] cfs].
Qed.

(** C4. In [GetOrderStatistics], a cached value that deserialises is
    returned as it is, with no validation and no store query.  On a miss, as
    soon as one of the four aggregate queries or the grouping query fails the
    call returns an error and no value; whenever a value is returned, it is
    either the cached one or the complete statistics. *)
Theorem GetOrderStatistics_all_or_nothing w :
  let w1 := after (redis_Get "order_stats") w in
  (∀ data stats,
     result (redis_Get "order_stats") w = (data, None) →
     json_Unmarshal_OrderStatistics data = Some stats →
     GetOrderStatistics w = ((Some stats, None), w1)) ∧
  (cached_statistics w = None →
   all_served 5 (db_faults w) = false →
   ∃ e, result GetOrderStatistics w = (None, Some e)) ∧
  (∀ stats err,
     result GetOrderStatistics w = (Some stats, err) →
     err = None ∧
     (cached_statistics w = Some stats ∨
      all_served 5 (db_faults w) = true ∧
      stats = statistics_of (now w) (orders w))).
Proof.
  intros w1. split_and!.
  - intros data stats Hget Hdec. rewrite GetOrderStatistics_dispatch.
    unfold cached_statistics. by rewrite Hget, Hdec.
  - intros Hmiss Hs. unfold result. rewrite GetOrderStatistics_dispatch, Hmiss.
    apply GetOrderStatistics_compute_failed.
    by rewrite redis_Get_after.
  - intros stats err. unfold result. rewrite GetOrderStatistics_dispatch.
    destruct (cached_statistics w) as [s|] eqn:Hc.
    + intros [= -> <-]. auto.
    + destruct (all_served 5 (db_faults w)) eqn:Hs.
      * rewrite GetOrderStatistics_compute_served by (by rewrite redis_Get_after).
        cbn [fst]. rewrite redis_Get_after. intros [= <- <-]. auto.
      * destruct (GetOrderStatistics_compute_failed (after (redis_Get "order_stats") w))
          as [e He]; [by rewrite redis_Get_after|].
        unfold result in He. rewrite He. done.
Qed.

(** C10. Populating the cache is best-effort.  When [GetTextureByID] or
    [GetOrderStatistics] obtains a valid value from the store, the call
    returns that value without error whatever happens to the serialisation
    and to the cache write; when either of them fails, the cache is simply
    left as it was. *)
Theorem cache_population_is_best_effort :
  (∀ textureID w t,
     let w1 := after (redis_Get (texture_cache_key textureID)) w in
     let w2 := after (query_texture_by_id textureID) w1 in
     cached_texture textureID w = None →
     result (query_texture_by_id textureID) w1 = (t, None) →
     f64_le_zero (PricePerDM2 t) = false →
     result (GetTextureByID textureID) w = (Some t, None) ∧
     (json_Marshal_Texture t = None ∨ ¬ served (cache_faults w2) →
      cache (after (GetTextureByID textureID) w) = cache w)) ∧
  (∀ w,
     let stats := statistics_of (now w) (orders w) in
     let w1 := after (redis_Get "order_stats") w in
     let w5 := set_db_faults (drop 5 (db_faults w1)) w1 in
     cached_statistics w = None →
     all_served 5 (db_faults w) = true →
     result GetOrderStatistics w = (Some stats, None) ∧
     (json_Marshal_OrderStatistics stats = None ∨ ¬ served (cache_faults w5) →
      cache (after GetOrderStatistics w) = cache w)).
Proof.
  split.
  - intros textureID w t w1 w2 Hmiss Hq Hle.
    unfold result, after. rewrite GetTextureByID_dispatch, Hmiss. fold w1.
    rewrite (GetTextureByID_fallback_valid _ _ t) by done. cbn [fst snd].
    split; [done|]. fold w2. intros Hfail.
    assert (cache w2 = cache w) as Hw2.
    { unfold w2, w1. by rewrite query_texture_by_id_after, redis_Get_after. }
    destruct (json_Marshal_Texture t) as [data|]; [|done].
    destruct Hfail as [|Hfail]; [done|]. by rewrite redis_Set_refused.
  - intros w stats w1 w5 Hmiss Hs.
    unfold result, after. rewrite GetOrderStatistics_dispatch, Hmiss. fold w1.
    rewrite GetOrderStatistics_compute_served
      by (unfold w1; by rewrite redis_Get_after).
    cbn [fst snd].
    assert (statistics_of (now w1) (orders w1) = stats) as ->.
    { unfold w1. by rewrite redis_Get_after. }
    split; [done|]. fold w5. intros Hfail.
    assert (cache w5 = cache w) as Hw5.
    { unfold w5, w1. by rewrite redis_Get_after. }
    destruct (json_Marshal_OrderStatistics stats) as [data|]; [|done].
    destruct Hfail as [|Hfail]; [done|]. by rewrite redis_Set_refused.
Qed.

(** ** Orders *)

Lemma exec_insert_order_run o w :
  exec_insert_order o w =
    match db_faults w with
    | Some msg :: fs => ((0, Some (Fault msg)), set_db_faults fs w)
    | _ =>
        ((next_order_id w, None),
         set_next_order_id (next_order_id w + 1)
           (set_orders (orders w ++ [new_order_row (next_order_id w) o])
              (set_db_faults (tail (db_faults w)) w)))
    end.
Proof.
  unfold exec_insert_order, bind, db_call. destruct w as [t os n ts us dfs c cfs].
  cbn [db_faults]. by destruct dfs as [|[msg|] dfs].
Qed.

Lemma served_cases fs :
  served fs → fs = [] ∨ ∃ fs', fs = None :: fs'.
Proof. destruct fs as [|[msg|] fs']; simpl; eauto. done. Qed.

Lemma exec_insert_order_served o w :
  served (db_faults w) →
  exec_insert_order o w =
    ((next_order_id w, None),
     set_next_order_id (next_order_id w + 1)
       (set_orders (orders w ++ [new_order_row (next_order_id w) o])
          (set_db_faults (tail (db_faults w)) w))).
Proof.
  intros Hs. rewrite exec_insert_order_run.
  by destruct (served_cases _ Hs) as [->|[fs' ->]].
Qed.

Lemma redis_Del_served key w :
  served (cache_faults w) →
  cache (after (redis_Del key) w) = delete key (cache w).
Proof.
  unfold after, redis_Del, bind, cache_call, served.
  destruct w as [t os n ts us dfs c cfs]. cbn [cache_faults].
  by destruct cfs as [|[msg|] cfs].
Qed.

Lemma redis_Del_after key w :
  after (redis_Del key) w =
    set_cache_faults (tail (cache_faults w))
      (if decide (served (cache_faults w))
       then set_cache (delete key (cache w)) w else w).
Proof.
  unfold after, redis_Del, bind, cache_call, served.
  destruct w as [t os n ts us dfs c cfs]. cbn [cache_faults].
  by destruct cfs as [|[msg|] cfs].
Qed.

Lemma SaveOrder_served order w :
  served (db_faults w) →
  SaveOrder order w =
    ((next_order_id w, None),
     after (redis_Del "order_stats") (after (exec_insert_order order) w)).
Proof.
  intros Hs. unfold SaveOrder, bind, after. rewrite exec_insert_order_served by done.
  cbn [snd]. by destruct (redis_Del _ _).
Qed.

Lemma cached_statistics_absent w :
  cache w !! "order_stats" = None → cached_statistics w = None.
Proof.
  intros Hc. unfold cached_statistics, result, redis_Get, bind, cache_call.
  destruct (cache_faults w) as [|[msg|] cfs]; cbn; by rewrite ?Hc.
Qed.

(** C3 (amended). A successful [SaveOrder] always issues the deletion of
    the cached statistics entry ("order_stats") and does not look at its
    outcome; when the cache carries the deletion out, the entry is gone and
    the next [GetOrderStatistics] recomputes from the store and sees the new
    order, whatever had been cached; when the insert fails, [SaveOrder]
    returns the wrapped error "failed to save order" and sends nothing to
    the cache. *)
Theorem SaveOrder_invalidates_statistics order w :
  (∀ msg fs,
     db_faults w = Some msg :: fs →
     SaveOrder order w =
       ((0, Some (Wrap "failed to save order" (Fault msg))), set_db_faults fs w)) ∧
  (served (db_faults w) →
   let w1 := after (exec_insert_order order) w in
   let w2 := after (SaveOrder order) w in
   result (SaveOrder order) w = (next_order_id w, None) ∧
   w2 = after (redis_Del "order_stats") w1 ∧
   (served (cache_faults w) →
    cache w2 !! "order_stats" = None ∧
    GetOrderStatistics w2
    = GetOrderStatistics_compute (after (redis_Get "order_stats") w2) ∧
    (all_served 5 (db_faults w2) = true →
     result GetOrderStatistics w2
     = (Some (statistics_of (now w)
                (orders w ++ [new_order_row (next_order_id w) order])),
        None)))).
Proof.
  split.
  - intros msg fs Hf. unfold SaveOrder, bind. rewrite exec_insert_order_run, Hf. done.
  - intros Hs w1 w2.
    assert (w2 = after (redis_Del "order_stats") w1) as Hw2.
    { unfold w2, after at 1. by rewrite SaveOrder_served. }
    split; [unfold result; by rewrite SaveOrder_served|].
    split; [done|]. intros Hc.
    assert (cache w2 !! "order_stats" = None) as Hgone.
    { rewrite Hw2, redis_Del_served.
      - apply lookup_delete_eq.
      - unfold w1, after. by rewrite exec_insert_order_served. }
    split; [done|]. split.
    + by rewrite GetOrderStatistics_dispatch, cached_statistics_absent.
    + intros Hall. unfold result.
      rewrite GetOrderStatistics_dispatch, cached_statistics_absent by done.
      rewrite GetOrderStatistics_compute_served by (by rewrite redis_Get_after).
      cbn [fst]. rewrite redis_Get_after, Hw2, redis_Del_after.
      unfold w1, after. rewrite exec_insert_order_served by done. cbn [snd].
      by destruct (decide _).
Qed.

(** [SELECT *] brings the column [deleted_at], for which [Order] has no
    field. *)
Lemma orders_star_missing_destination :
  sqlx_missing_destination orders_columns Order_db_tags = Some "deleted_at".
Proof. by vm_compute. Qed.

Lemma query_order_by_id_run orderID w :
  query_order_by_id orderID w =
    ((zero_Order,
      Some match db_faults w with
           | Some msg :: _ => Fault msg
           | _ => missing_destination_error "deleted_at" "*postgres.Order"
           end), set_db_faults (tail (db_faults w)) w).
Proof.
  unfold query_order_by_id, bind, db_call. rewrite orders_star_missing_destination.
  destruct w as [t os n ts us dfs c cfs]. cbn [db_faults].
  by destruct dfs as [|[msg|] dfs].
Qed.

(** What [GetOrderByID] returns, by cases on the store's answer. *)
Lemma GetOrderByID_run orderID w :
  GetOrderByID orderID w =
    ((None,
      Some (Wrap "failed to get order"
              match db_faults w with
              | Some msg :: _ => Fault msg
              | _ => missing_destination_error "deleted_at" "*postgres.Order"
              end)), set_db_faults (tail (db_faults w)) w).
Proof.
  unfold GetOrderByID, bind. rewrite query_order_by_id_run.
  by destruct (db_faults w) as [|[msg|] dfs].
Qed.

Lemma redis_Del_tables key w :
  orders (after (redis_Del key) w) = orders w ∧
  next_order_id (after (redis_Del key) w) = next_order_id w.
Proof. rewrite redis_Del_after. by destruct (decide _). Qed.

Lemma orders_keyed_snoc rows n r :
  NoDup (id <$> rows) → Forall (λ r, id r < n) rows → id r = n →
  NoDup (id <$> rows ++ [r]) ∧ Forall (λ r', id r' < n + 1) (rows ++ [r]).
Proof.
  intros Hnd Hlt Hr. split.
  - rewrite fmap_app. apply NoDup_app. split_and!; [done| |apply NoDup_singleton].
    intros i Hi ->%list_elem_of_singleton.
    apply list_elem_of_fmap in Hi as (r' & Hr1 & Hr2).
    rewrite Forall_forall in Hlt. specialize (Hlt r' Hr2). cbn in *. lia.
  - apply Forall_app. split.
    + eapply Forall_impl; [done|]. cbn. intros. lia.
    + apply Forall_singleton. lia.
Qed.

(** The primary-key discipline is kept by the operations on [orders]. *)
Lemma SaveOrder_keeps_keys order w :
  orders_keyed w → orders_keyed (after (SaveOrder order) w).
Proof.
  intros [Hnd Hlt]. unfold after, SaveOrder, bind. rewrite exec_insert_order_run.
  destruct (db_faults w) as [|[msg|] dfs] eqn:Hd.
  2:{ by destruct w. }
  all: match goal with |- context [redis_Del ?k ?w0] =>
         destruct (redis_Del_tables k w0) as [Ho Hn]; unfold after in Ho, Hn;
         destruct (redis_Del k w0) as [e w'] end.
  all: cbn [snd ret] in *; unfold orders_keyed; rewrite Ho, Hn.
  all: destruct w as [t os n ts us dfs' c cfs]; cbn in *.
  all: by apply orders_keyed_snoc.
Qed.

Lemma DeleteUserData_run chatID w :
  DeleteUserData chatID w =
    match db_faults w with
    | Some msg :: fs => (Some (Fault msg), set_db_faults fs w)
    | _ =>
        (None,
         set_orders ((λ r, if bool_decide (user_id r = chatID)
                           then soft_delete (now w) r else r) <$> orders w)
           (set_db_faults (tail (db_faults w)) w))
    end.
Proof.
  unfold DeleteUserData, exec_soft_delete, bind, db_call.
  destruct w as [t os n ts us dfs c cfs]. cbn [db_faults].
  by destruct dfs as [|[msg|] dfs].
Qed.

Lemma soft_delete_keeps_id chatID t (rows : list OrderRow) :
  id <$> ((λ r, if bool_decide (user_id r = chatID) then soft_delete t r else r)
            <$> rows)
  = id <$> rows.
Proof.
  rewrite <-list_fmap_compose. apply list_fmap_ext.
  intros i r _. cbn. by case_bool_decide.
Qed.

Lemma DeleteUserData_keeps_keys chatID w :
  orders_keyed w → orders_keyed (after (DeleteUserData chatID) w).
Proof.
  intros [Hnd Hlt]. unfold after. rewrite DeleteUserData_run.
  destruct w as [t os n ts us dfs c cfs]. cbn [db_faults now orders] in *.
  destruct dfs as [|[msg|] dfs]; cbn [snd]; unfold orders_keyed; cbn; try done.
  all: rewrite soft_delete_keeps_id; split; [done|].
  all: apply Forall_fmap; eapply Forall_impl; [done|]; intros r Hr; cbn;
    by case_bool_decide.
Qed.

(** C5. After a successful [SaveOrder order] returning [oid] the order is
    in the table under that id, but [GetOrderByID oid] does not return it:
    the lookup reads [SELECT *] into an [Order], which has no field for the
    column [deleted_at], and fails with "failed to get order: missing
    destination name deleted_at in *postgres.Order".  No call of
    [GetOrderByID] returns an order. *)
Theorem SaveOrder_then_GetOrderByID order w :
  served (db_faults w) →
  let oid := (result (SaveOrder order) w).1 in
  let w' := after (SaveOrder order) w in
  result (SaveOrder order) w = (next_order_id w, None) ∧
  new_order_row oid order ∈ orders w' ∧
  (served (db_faults w') →
   result (GetOrderByID oid) w'
   = (None, Some (Wrap "failed to get order"
                    (New "missing destination name deleted_at in *postgres.Order")))) ∧
  (∀ orderID w0, (result (GetOrderByID orderID) w0).1 = None).
Proof.
  intros Hs oid w'.
  assert (result (SaveOrder order) w = (next_order_id w, None)) as Hres.
  { unfold result. by rewrite SaveOrder_served. }
  split_and!.
  - done.
  - unfold oid, w', after. rewrite Hres. rewrite SaveOrder_served by done.
    cbn [fst snd]. rewrite (proj1 (redis_Del_tables _ _)).
    unfold after. rewrite exec_insert_order_served by done. cbn [snd orders set_orders
      set_next_order_id]. apply elem_of_app. right. apply list_elem_of_here.
  - intros Hs'. unfold result. rewrite GetOrderByID_run.
    by destruct (served_cases _ Hs') as [->|[fs' ->]].
  - intros orderID w0. unfold result. by rewrite GetOrderByID_run.
Qed.

#[local] Instance newer_first_total : Total newer_first.
Proof. intros a b. unfold newer_first. lia. Qed.

#[local] Instance newer_first_trans : Transitive newer_first.
Proof. intros a b c. unfold newer_first. lia. Qed.

Lemma GetUserOrders_run userID w :
  GetUserOrders userID w =
    (match db_faults w with
     | Some msg :: _ => ([], Some (Fault msg))
     | _ => (scan_user_order <$> user_order_rows userID (orders w), None)
     end, set_db_faults (tail (db_faults w)) w).
Proof.
  unfold GetUserOrders, query_user_orders, bind, db_call.
  destruct w as [t os n ts us dfs c cfs]. cbn [db_faults].
  by destruct dfs as [|[msg|] dfs].
Qed.

Lemma GetUserOrders_served userID w :
  served (db_faults w) →
  result (GetUserOrders userID) w
  = (scan_user_order <$> user_order_rows userID (orders w), None).
Proof.
  intros Hs. unfold result. rewrite GetUserOrders_run.
  by destruct (served_cases _ Hs) as [->|[fs' ->]].
Qed.




(** ** User agreements *)

Lemma GetUserAgreement_run userID w :
  result (GetUserAgreement userID) w =
    match db_faults w with
    | Some msg :: _ => (false, EmptyString, Some (Fault msg))
    | _ =>
        match users w !! userID with
        | Some u => (agreed_to_tpa u, phone_number u, None)
        | None => (false, EmptyString, None)
        end
    end.
Proof.
  unfold result, GetUserAgreement, query_agreement, bind, db_call.
  destruct w as [t os n ts us dfs c cfs]. cbn [db_faults].
  destruct dfs as [|[msg|] dfs]; cbn; [|done|]; by destruct (us !! userID).
Qed.

(** C8. For a user without a row in [users], [GetUserAgreement] returns
    not agreed, an empty phone and no error; the absence of the row is never
    what an error of this operation reports: every error it returns is the
    failure of the query itself. *)
Theorem GetUserAgreement_absence_is_default userID w :
  (users w !! userID = None →
   served (db_faults w) →
   result (GetUserAgreement userID) w = (false, EmptyString, None)) ∧
  (∀ agreed phone e,
     result (GetUserAgreement userID) w = (agreed, phone, Some e) →
     errors_Is e ErrNoRows = false ∧
     ∃ msg, head (db_faults w) = Some (Some msg) ∧ e = Fault msg).
Proof.
  rewrite GetUserAgreement_run. split.
  - intros Hu Hs. rewrite Hu. by destruct (served_cases _ Hs) as [->|[fs' ->]].
  - intros agreed phone e.
    destruct (db_faults w) as [|[msg|] dfs]; [|intros [= <- <- <-]; eauto|];
      by destruct (users w !! userID).
Qed.

(** ** Kinds of errors of the point lookups *)

Lemma query_texture_by_id_run textureID w :
  result (query_texture_by_id textureID) w =
    match db_faults w with
    | Some msg :: _ => (zero_Texture, Some (Fault msg))
    | _ =>
        match head (filter (λ t, TexID t = textureID) (textures w)) with
        | Some t => (t, None)
        | None => (zero_Texture, Some (Sentinel ErrNoRows))
        end
    end.
Proof.
  unfold result, query_texture_by_id, bind, db_call.
  destruct w as [t os n ts us dfs c cfs]. cbn [db_faults].
  destruct dfs as [|[msg|] dfs]; cbn; [|done|]; by destruct (head _).
Qed.

(** The store path of [GetTextureByID] reports an absent row with an error
    of the not-found kind, and a failed query with an error of another
    kind. *)
Lemma GetTextureByID_fallback_error_kind textureID w :
  (head (filter (λ t, TexID t = textureID) (textures w)) = None →
   served (db_faults w) →
   ∃ e, result (GetTextureByID_fallback textureID) w = (None, Some e) ∧
        errors_Is e ErrNoRows = true) ∧
  (∀ msg, head (db_faults w) = Some (Some msg) →
   ∃ e, result (GetTextureByID_fallback textureID) w = (None, Some e) ∧
        errors_Is e ErrNoRows = false).
Proof.
  pose proof (query_texture_by_id_run textureID w) as Hq.
  unfold result, GetTextureByID_fallback, bind in *.
  destruct (query_texture_by_id textureID w) as [[t e] w1]. cbn [fst] in *. split.
  - intros Hnone Hs. rewrite Hnone in Hq.
    destruct (served_cases _ Hs) as [Hd|[fs' Hd]]; rewrite Hd in Hq;
      injection Hq as -> ->; eauto.
  - intros msg Hd. destruct (db_faults w) as [|[msg'|] dfs]; try done.
    injection Hq as -> ->. eauto.
Qed.

(** C9. The two point lookups on an absent row and on a failed query.
    [GetTextureByID] reports the absent row with an error that [errors.Is]
    recognises as [sql.ErrNoRows].  [GetOrderByID] reports the absent row
    with the error it has for a row that is there, "failed to get order:
    missing destination name deleted_at in *postgres.Order", and no error of
    [GetOrderByID] is of the not-found kind or of any other. *)
Theorem GetOrderByID_not_found_lacks_kind :
  let absent := empty_world in
  let present := world_of [new_order_row 1 sample_order] [] in
  let broken := with_faults [Some "connection reset"] [] empty_world in
  let unread := Wrap "failed to get order"
                  (New "missing destination name deleted_at in *postgres.Order") in
  result (GetTextureByID "t1") absent
  = (None, Some (Wrap "texture not found" (Sentinel ErrNoRows))) ∧
  result (GetTextureByID "t1") broken
  = (None, Some (Wrap "failed to get texture" (Fault "connection reset"))) ∧
  errors_Is (Wrap "texture not found" (Sentinel ErrNoRows)) ErrNoRows = true ∧
  errors_Is (Wrap "failed to get texture" (Fault "connection reset")) ErrNoRows = false ∧
  result (GetOrderByID 1) absent = (None, Some unread) ∧
  result (GetOrderByID 1) present = (None, Some unread) ∧
  result (GetOrderByID 1) broken
  = (None, Some (Wrap "failed to get order" (Fault "connection reset"))) ∧
  (∀ orderID w,
     ∃ e, result (GetOrderByID orderID) w = (None, Some e) ∧
          ∀ s, errors_Is e s = false).
Proof.
  cbv zeta. split_and!; try by vm_compute.
  intros orderID w. unfold result. rewrite GetOrderByID_run. cbn [fst].
  eexists. split; [done|]. intros s. by destruct (db_faults w) as [|[msg|] dfs].
Qed.

(** ** Counterexamples *)

(** C1 as stated fails: a texture whose price is +Inf is read from the
    store, passes validation (+Inf > 0) and is returned, but it is not
    written to the cache, because it does not serialise. *)
Lemma GetTextureByID_priceless_not_cached :
  let w := world_of [] [leather_priceless] in
  result (query_texture_by_id "t1") w = (leather_priceless, None) ∧
  f64_gt_zero (PricePerDM2 leather_priceless) = true ∧
  result (GetTextureByID "t1") w = (Some leather_priceless, None) ∧
  cache (after (GetTextureByID "t1") w) !! texture_cache_key "t1" = None.
Proof. cbv zeta. split_and!; by vm_compute. Qed.

(** C3 as stated fails: the cache refuses the deletion, [SaveOrder]
    succeeds all the same, the statistics entry stays, and the next
    [GetOrderStatistics] returns the value cached before the insert, which
    counts no order, while the table holds four. *)
Lemma SaveOrder_leaves_statistics_cached :
  let w := with_faults [] [Some "timeout"]
             (with_cached "order_stats" (JStats zero_OrderStatistics)
                (world_of sample_rows [])) in
  let w' := after (SaveOrder sample_order) w in
  result (SaveOrder sample_order) w = (4, None) ∧
  cache w' !! "order_stats" = Some (mkEntry (JStats zero_OrderStatistics) None) ∧
  result GetOrderStatistics w' = (Some zero_OrderStatistics, None) ∧
  length (orders w') = 4%nat ∧
  TotalOrders zero_OrderStatistics = 0.
Proof. cbv zeta. split_and!; by vm_compute. Qed.

(** ** The theorems at concrete inputs *)

Lemma GetTextureByID_validation_witness :
  let stale := with_cached "texture:t1" (JTexture leather_unpriced)
                 (world_of [] [leather]) in
  let unpriced := world_of [] [leather_unpriced] in
  GetTextureByID "t1" stale
  = GetTextureByID_fallback "t1" (after (redis_Get "texture:t1") stale) ∧
  result (GetTextureByID "t1") stale = (Some leather, None) ∧
  cache (after (GetTextureByID "t1") stale)
  = <["texture:t1" := mkEntry (JTexture leather) (Some (1000 + 24 * Hour))]>
      (cache stale) ∧
  result (GetTextureByID "t1") unpriced
  = (None, Some (New "invalid price for texture t1: 0.00")) ∧
  cache (after (GetTextureByID "t1") unpriced) = cache unpriced.
Proof.
  intros stale unpriced.
  destruct (GetTextureByID_validation "t1" stale) as [Hhit Hstore].
  destruct (GetTextureByID_validation "t1" unpriced) as [_ Hstore'].
  split.
  { apply (Hhit (JTexture leather_unpriced) leather_unpriced); reflexivity. }
  destruct (Hstore leather) as [_ Hvalid]; [reflexivity..|].
  destruct Hvalid as [Hres Hcache]; [reflexivity|].
  split; [exact Hres|]. split.
  { apply Hcache; [reflexivity|exact I]. }
  destruct (Hstore' leather_unpriced) as [Hinvalid _]; [reflexivity..|].
  destruct Hinvalid as [Hcall Hsame]; [reflexivity|].
  unfold result, after. rewrite Hcall. split; [reflexivity|exact Hsame].
Defined.

Lemma CheckRateLimit_fixed_window_witness :
  let w := empty_world in
  counter_at w (ratelimit_key 7 "order") = Some (0, None) ∧
  result (CheckRateLimit 7 "order" 3 Hour) w = (false, None) ∧
  after (CheckRateLimit 7 "order" 3 Hour) w
  = set_cache (<[ratelimit_key 7 "order" := mkEntry (JInt 1) (Some (1000 + Hour))]>
                 (cache w)) w ∧
  result (run_calls (CheckRateLimit 7 "order" 3 Hour) [0; 1; 1; 1]) w
  = [(false, None); (false, None); (false, None); (true, None)].
Proof.
  intros w.
  destruct (CheckRateLimit_fixed_window 7 "order" 3 Hour) as (_ & Hstep & Hrun).
  split; [reflexivity|].
  destruct (Hstep w 0 None) as [Hres Hafter]; [reflexivity|reflexivity|reflexivity|].
  split; [exact Hres|]. split; [exact Hafter|].
  apply (Hrun w 0 [1; 1; 1]).
  - reflexivity.
  - reflexivity.
  - repeat constructor; lia.
  - reflexivity.
  - split; [lia|reflexivity].
  - reflexivity.
Defined.

Lemma SaveOrder_invalidates_statistics_witness :
  let w := with_cached "order_stats" (JStats zero_OrderStatistics)
             (world_of sample_rows []) in
  let down := with_faults [Some "connection reset"] [] w in
  result GetOrderStatistics w = (Some zero_OrderStatistics, None) ∧
  result (SaveOrder sample_order) w = (4, None) ∧
  cache (after (SaveOrder sample_order) w) !! "order_stats" = None ∧
  result GetOrderStatistics (after (SaveOrder sample_order) w)
  = (Some (statistics_of 1000 (sample_rows ++ [new_order_row 4 sample_order])),
     None) ∧
  SaveOrder sample_order down
  = ((0, Some (Wrap "failed to save order" (Fault "connection reset"))),
     set_db_faults [] down) ∧
  cache (set_db_faults [] down) !! "order_stats"
  = Some (mkEntry (JStats zero_OrderStatistics) None).
Proof.
  intros w down.
  destruct (SaveOrder_invalidates_statistics sample_order w) as [_ Hok].
  destruct (SaveOrder_invalidates_statistics sample_order down) as [Hfail _].
  split; [reflexivity|].
  destruct Hok as (Hres & _ & Hcache); [exact I|].
  destruct Hcache as (Hgone & _ & Hnext); [exact I|].
  split; [exact Hres|]. split; [exact Hgone|]. split.
  { apply Hnext. reflexivity. }
  split; [|reflexivity].
  apply (Hfail "connection reset" []). reflexivity.
Defined.

Lemma GetOrderStatistics_all_or_nothing_witness :
  let cached := with_cached "order_stats" (JStats zero_OrderStatistics)
                  (world_of sample_rows []) in
  let failing := with_faults [None; None; Some "timeout"] [] (world_of sample_rows []) in
  let healthy := world_of sample_rows [] in
  GetOrderStatistics cached
  = ((Some zero_OrderStatistics, None), after (redis_Get "order_stats") cached) ∧
  (∃ e, result GetOrderStatistics failing = (None, Some e)) ∧
  result GetOrderStatistics failing
  = (None, Some (Wrap "failed to get week's stats" (Fault "timeout"))) ∧
  result GetOrderStatistics healthy = (Some (statistics_of 1000 sample_rows), None) ∧
  (cached_statistics healthy = Some (statistics_of 1000 sample_rows) ∨
   all_served 5 (db_faults healthy) = true ∧
   statistics_of 1000 sample_rows = statistics_of (now healthy) (orders healthy)).
Proof.
  intros cached failing healthy.
  destruct (GetOrderStatistics_all_or_nothing cached) as (Hhit & _ & _).
  destruct (GetOrderStatistics_all_or_nothing failing) as (_ & Hfail & _).
  destruct (GetOrderStatistics_all_or_nothing healthy) as (_ & _ & Hfull).
  split.
  { apply (Hhit (JStats zero_OrderStatistics) zero_OrderStatistics); reflexivity. }
  split.
  { apply Hfail; reflexivity. }
  split; [reflexivity|]. split; [reflexivity|].
  apply (Hfull (statistics_of 1000 sample_rows) None). reflexivity.
Defined.

Lemma SaveOrder_then_GetOrderByID_witness :
  let w' := after (SaveOrder sample_order) empty_world in
  served (db_faults empty_world) ∧
  result (SaveOrder sample_order) empty_world = (1, None) ∧
  new_order_row 1 sample_order ∈ orders w' ∧
  result (GetOrderByID 1) w'
  = (None, Some (Wrap "failed to get order"
                   (New "missing destination name deleted_at in *postgres.Order"))) ∧
  (result (GetOrderByID 1) w').1 = None.
Proof.
  intros w'.
  destruct (SaveOrder_then_GetOrderByID sample_order empty_world)
    as (Hres & Hrow & Hget & Hnever); [exact I|].
  split; [exact I|]. split; [exact Hres|]. split; [exact Hrow|].
  split; [apply Hget; exact I|]. apply Hnever.
Defined.



Lemma GetUserAgreement_absence_is_default_witness :
  users empty_world !! 7 = None ∧
  result (GetUserAgreement 7) empty_world = (false, EmptyString, None) ∧
  result (GetUserAgreement 7) (after (SaveUserAgreement 7 "+100200300") empty_world)
  = (true, "+100200300", None) ∧
  errors_Is (Fault "timeout") ErrNoRows = false.
Proof.
  destruct (GetUserAgreement_absence_is_default 7 empty_world) as [Habsent _].
  destruct (GetUserAgreement_absence_is_default 7
              (with_faults [Some "timeout"] [] empty_world)) as [_ Herr].
  split; [reflexivity|]. split; [apply Habsent; [reflexivity|exact I]|].
  split; [reflexivity|].
  destruct (Herr false EmptyString (Fault "timeout")) as [Hkind _]; [reflexivity|exact Hkind].
Defined.

Lemma cache_population_is_best_effort_witness :
  let unreachable := with_faults [] [Some "timeout"; Some "timeout"]
                       (world_of sample_rows [leather]) in
  let priceless := world_of [] [leather_priceless] in
  result (GetTextureByID "t1") unreachable = (Some leather, None) ∧
  cache (after (GetTextureByID "t1") unreachable) = cache unreachable ∧
  result (GetTextureByID "t1") priceless = (Some leather_priceless, None) ∧
  cache (after (GetTextureByID "t1") priceless) = cache priceless ∧
  result GetOrderStatistics unreachable
  = (Some (statistics_of 1000 sample_rows), None) ∧
  cache (after GetOrderStatistics unreachable) = cache unreachable.
Proof.
  intros unreachable priceless.
  destruct cache_population_is_best_effort as [Htex Hstats].
  destruct (Htex "t1" unreachable leather) as [Hres Hcache]; [reflexivity..|].
  destruct (Htex "t1" priceless leather_priceless) as [Hres' Hcache']; [reflexivity..|].
  destruct (Hstats unreachable) as [Hres'' Hcache'']; [reflexivity..|].
  split; [exact Hres|]. split.
  { apply Hcache. right. intros []. }
  split; [exact Hres'|]. split.
  { apply Hcache'. left. reflexivity. }
  split; [exact Hres''|].
  apply Hcache''. right. intros [].
Defined.

(** * Further properties *)

(** ** User agreements *)

Lemma SaveUserAgreement_run userID phone w :
  SaveUserAgreement userID phone w =
    match db_faults w with
    | Some msg :: fs => (Some (Fault msg), set_db_faults fs w)
    | _ =>
        (None,
         set_users (<[userID := mkUserRow true phone]> (users w))
           (set_db_faults (tail (db_faults w)) w))
    end.
Proof.
  unfold SaveUserAgreement, exec_upsert_agreement, bind, db_call.
  destruct w as [t os n ts us dfs c cfs]. cbn [db_faults].
  by destruct dfs as [|[msg|] dfs].
Qed.

(** X1. After a successful [SaveUserAgreement userID phone], whatever the
    user's row was before, [GetUserAgreement userID] returns agreed with
    exactly that phone; the rows of other users are untouched. *)
Theorem SaveUserAgreement_then_GetUserAgreement userID phone w :
  served (db_faults w) →
  let w' := after (SaveUserAgreement userID phone) w in
  result (SaveUserAgreement userID phone) w = None ∧
  (served (db_faults w') →
   result (GetUserAgreement userID) w' = (true, phone, None)) ∧
  (∀ other, other ≠ userID → users w' !! other = users w !! other).
Proof.
  intros Hs w'.
  assert (users w' = <[userID := mkUserRow true phone]> (users w)) as Hu.
  { unfold w', after. rewrite SaveUserAgreement_run.
    by destruct (served_cases _ Hs) as [->|[fs' ->]]. }
  split_and!.
  - unfold result. rewrite SaveUserAgreement_run.
    by destruct (served_cases _ Hs) as [->|[fs' ->]].
  - intros Hs'. rewrite GetUserAgreement_run, Hu, lookup_insert_eq.
    by destruct (served_cases _ Hs') as [->|[fs' ->]].
  - intros other Hne. rewrite Hu. by apply lookup_insert_ne.
Qed.

Lemma SaveUserAgreement_then_GetUserAgreement_witness :
  let w := after (SaveUserAgreement 7 "+100") empty_world in
  served (db_faults w) ∧
  result (GetUserAgreement 7) w = (true, "+100", None) ∧
  result (SaveUserAgreement 7 "+200") w = None ∧
  result (GetUserAgreement 7) (after (SaveUserAgreement 7 "+200") w)
  = (true, "+200", None).
Proof.
  intros w.
  destruct (SaveUserAgreement_then_GetUserAgreement 7 "+200" w) as (Hres & Hget & _);
    [exact I|].
  split; [exact I|]. split; [reflexivity|]. split; [exact Hres|].
  apply Hget. exact I.
Defined.

(** X2. [GetUserOrders], [DeleteUserData], [SaveUserAgreement] and
    [GetUserAgreement] hand a failure of their statement to the caller as it
    is, without wrapping it in any context, and leave every table and the
    cache as they were. *)
Theorem unwrapped_store_errors w msg fs :
  db_faults w = Some msg :: fs →
  (∀ userID, GetUserOrders userID w = (([], Some (Fault msg)), set_db_faults fs w)) ∧
  (∀ chatID, DeleteUserData chatID w = (Some (Fault msg), set_db_faults fs w)) ∧
  (∀ userID phone,
     SaveUserAgreement userID phone w = (Some (Fault msg), set_db_faults fs w)) ∧
  (∀ userID,
     GetUserAgreement userID w
     = ((false, EmptyString, Some (Fault msg)), set_db_faults fs w)).
Proof.
  intros Hd. split_and!.
  - intros userID. by rewrite GetUserOrders_run, Hd.
  - intros chatID. by rewrite DeleteUserData_run, Hd.
  - intros userID phone. by rewrite SaveUserAgreement_run, Hd.
  - intros userID. unfold GetUserAgreement, query_agreement, bind, db_call.
    by rewrite Hd.
Qed.

Lemma unwrapped_store_errors_witness :
  let w := with_faults [Some "connection reset"] [] (world_of sample_rows []) in
  GetUserOrders 7 w = (([], Some (Fault "connection reset")), set_db_faults [] w) ∧
  DeleteUserData 7 w = (Some (Fault "connection reset"), set_db_faults [] w) ∧
  orders (set_db_faults [] w) = sample_rows.
Proof.
  intros w.
  destruct (unwrapped_store_errors w "connection reset" []) as (H1 & H2 & _);
    [reflexivity|].
  split; [apply H1|]. split; [apply H2|reflexivity].
Defined.

(** ** What each call leaves alone *)

#[local] Instance same_except_refl u o K : Reflexive (same_except u o K).
Proof. intros w. unfold same_except. auto. Qed.

#[local] Instance same_except_trans u o K : Transitive (same_except u o K).
Proof.
  intros w1 w2 w3 (Ht & Hu & Ho & Hc) (Ht' & Hu' & Ho' & Hc').
  unfold same_except. split_and!.
  - congruence.
  - intros ->. rewrite Hu', Hu; done.
  - intros ->. destruct (Ho eq_refl) as [Ho1 Ho2], (Ho' eq_refl) as [Ho1' Ho2'].
    split; congruence.
  - intros k Hk. rewrite Hc', Hc; done.
Qed.

Lemma same_except_weaken (u o u' o' : bool) (K K' : string → Prop) w w' :
  same_except u o K w w' →
  (u = true → u' = true) → (o = true → o' = true) → (∀ k, K k → K' k) →
  same_except u' o' K' w w'.
Proof.
  intros (Ht & Hu & Ho & Hc) Huu Hoo HK. unfold same_except. split_and!.
  - done.
  - intros ->. apply Hu. destruct u; [discriminate (Huu eq_refl)|done].
  - intros ->. apply Ho. destruct o; [discriminate (Hoo eq_refl)|done].
  - intros k Hk. apply Hc. intros HKk. apply Hk. by apply HK.
Qed.

Lemma preserves_ret {A} (R : relation World) `{!Reflexive R} (a : A) :
  preserves R (ret a).
Proof. intros w. unfold after, ret. done. Qed.

Lemma preserves_bind {A B} (R : relation World) `{!Transitive R}
    (m : M A) (k : A → M B) :
  preserves R m → (∀ a, preserves R (k a)) → preserves R (bind m k).
Proof.
  intros Hm Hk w. specialize (Hm w). unfold after, bind in *.
  destruct (m w) as [a w1]. specialize (Hk a w1). cbn [snd] in *.
  by etrans.
Qed.

Ltac frame_leaf :=
  intros [t os n ts us dfs c cfs];
  unfold after, same_except, db_call, cache_call, bind, ret, get_world, modify;
  cbn [db_faults cache_faults];
  repeat match goal with
         | |- context [match ?l with [] => _ | _ :: _ => _ end] =>
             is_var l; destruct l as [|[?|] ?]
         end;
  cbn;
  repeat match goal with
         | |- context [match ?x with Some _ => _ | None => _ end] =>
             destruct x eqn:?; cbn
         | |- context [match ?x with JInt _ => _ | _ => _ end] =>
             destruct x eqn:?; cbn
         | |- context [if ?b then _ else _] => destruct b eqn:?; cbn
         end;
  split_and!; try done.

Section frames.
Context (u o : bool) (K : string → Prop).

Lemma db_call_frame : preserves (same_except u o K) db_call.
Proof. frame_leaf. Qed.

Lemma cache_call_frame : preserves (same_except u o K) cache_call.
Proof. frame_leaf. Qed.

Lemma query_texture_by_id_frame textureID :
  preserves (same_except u o K) (query_texture_by_id textureID).
Proof. unfold query_texture_by_id. frame_leaf. Qed.

Lemma query_texture_by_name_frame name :
  preserves (same_except u o K) (query_texture_by_name name).
Proof. unfold query_texture_by_name. frame_leaf. Qed.

Lemma query_available_textures_frame :
  preserves (same_except u o K) query_available_textures.
Proof. unfold query_available_textures. frame_leaf. Qed.

Lemma query_order_by_id_frame orderID :
  preserves (same_except u o K) (query_order_by_id orderID).
Proof. unfold query_order_by_id. frame_leaf. Qed.

Lemma query_user_orders_frame userID :
  preserves (same_except u o K) (query_user_orders userID).
Proof. unfold query_user_orders. frame_leaf. Qed.

Lemma query_agreement_frame userID :
  preserves (same_except u o K) (query_agreement userID).
Proof. unfold query_agreement. frame_leaf. Qed.

Lemma query_count_revenue_frame since :
  preserves (same_except u o K) (query_count_revenue since).
Proof. unfold query_count_revenue. frame_leaf. Qed.

Lemma query_status_counts_frame :
  preserves (same_except u o K) query_status_counts.
Proof. unfold query_status_counts. frame_leaf. Qed.

Lemma exec_insert_order_frame order :
  o = true → preserves (same_except u o K) (exec_insert_order order).
Proof. intros ->. unfold exec_insert_order. frame_leaf. Qed.

Lemma exec_soft_delete_frame chatID :
  o = true → preserves (same_except u o K) (exec_soft_delete chatID).
Proof. intros ->. unfold exec_soft_delete. frame_leaf. Qed.

Lemma exec_upsert_agreement_frame userID phone :
  u = true → preserves (same_except u o K) (exec_upsert_agreement userID phone).
Proof. intros ->. unfold exec_upsert_agreement. frame_leaf. Qed.

Lemma redis_Get_frame key : preserves (same_except u o K) (redis_Get key).
Proof. unfold redis_Get. frame_leaf. Qed.

Lemma redis_Set_frame key data ttl :
  K key → preserves (same_except u o K) (redis_Set key data ttl).
Proof.
  intros HK. unfold redis_Set. frame_leaf.
  all: intros k Hk; apply lookup_insert_ne; by intros ->.
Qed.

Lemma redis_Del_frame key :
  K key → preserves (same_except u o K) (redis_Del key).
Proof.
  intros HK. unfold redis_Del. frame_leaf.
  all: intros k Hk; apply lookup_delete_ne; by intros ->.
Qed.

Lemma redis_Incr_frame key :
  K key → preserves (same_except u o K) (redis_Incr key).
Proof.
  intros HK. unfold redis_Incr, live. frame_leaf.
  all: intros k Hk; apply lookup_insert_ne; by intros ->.
Qed.

Lemma redis_Expire_frame key window :
  K key → preserves (same_except u o K) (redis_Expire key window).
Proof.
  intros HK. unfold redis_Expire, live. frame_leaf.
  all: intros k Hk; apply lookup_insert_ne; by intros ->.
Qed.
End frames.

Ltac frame_step :=
  lazymatch goal with
  | |- preserves _ (bind _ _) => apply preserves_bind; [apply _| |intros ?]
  | |- preserves _ (ret _) => apply preserves_ret; apply _
  | |- preserves _ (match ?x with _ => _ end) => destruct x
  | |- preserves _ (if ?b then _ else _) => destruct b
  | |- preserves _ _ =>
      first [ apply db_call_frame | apply cache_call_frame
            | apply query_texture_by_id_frame | apply query_texture_by_name_frame
            | apply query_available_textures_frame | apply query_order_by_id_frame
            | apply query_user_orders_frame | apply query_agreement_frame
            | apply query_count_revenue_frame | apply query_status_counts_frame
            | apply exec_insert_order_frame; reflexivity
            | apply exec_soft_delete_frame; reflexivity
            | apply exec_upsert_agreement_frame; reflexivity
            | apply redis_Get_frame
            | apply redis_Set_frame; reflexivity
            | apply redis_Del_frame; reflexivity
            | apply redis_Incr_frame; reflexivity
            | apply redis_Expire_frame; reflexivity ]
  end.

Ltac frame := cbv zeta; repeat frame_step.

Lemma GetTextureByID_fallback_frame textureID :
  preserves (same_except false false (λ k, k = texture_cache_key textureID))
            (GetTextureByID_fallback textureID).
Proof. unfold GetTextureByID_fallback, json_Marshal_Texture. frame. Qed.

Lemma GetTextureByID_frame textureID :
  preserves (same_except false false (λ k, k = texture_cache_key textureID))
            (GetTextureByID textureID).
Proof.
  unfold GetTextureByID. frame. all: apply GetTextureByID_fallback_frame.
Qed.

Lemma GetOrderStatistics_compute_frame :
  preserves (same_except false false (λ k, k = "order_stats"))
            GetOrderStatistics_compute.
Proof. unfold GetOrderStatistics_compute. frame. Qed.

Lemma GetOrderStatistics_frame :
  preserves (same_except false false (λ k, k = "order_stats")) GetOrderStatistics.
Proof.
  unfold GetOrderStatistics. frame. all: apply GetOrderStatistics_compute_frame.
Qed.

Lemma SaveOrder_frame order :
  preserves (same_except false true (λ k, k = "order_stats")) (SaveOrder order).
Proof. unfold SaveOrder. frame. Qed.

Lemma CheckRateLimit_frame userID action limit window :
  preserves (same_except false false (λ k, k = ratelimit_key userID action))
            (CheckRateLimit userID action limit window).
Proof. unfold CheckRateLimit. frame. Qed.

(** What one call may write. *)
Lemma perform_frame c w :
  same_except (writes_users c) (writes_orders c) (call_keys c) w (perform c w).
Proof.
  destruct c; cbn [perform writes_users writes_orders call_keys].
  - revert w. change (preserves (same_except false false no_key) (GetUserOrders userID)).
    unfold GetUserOrders. frame.
  - revert w. change (preserves (same_except false true no_key) (DeleteUserData chatID)).
    unfold DeleteUserData. frame.
  - apply GetTextureByID_frame.
  - revert w. change (preserves (same_except false false no_key) GetAvailableTextures).
    unfold GetAvailableTextures. frame.
  - revert w. change (preserves (same_except false false no_key) (GetTextureByName name)).
    unfold GetTextureByName. frame.
  - apply SaveOrder_frame.
  - revert w.
    change (preserves (same_except true false no_key) (SaveUserAgreement userID phone)).
    unfold SaveUserAgreement. frame.
  - revert w. change (preserves (same_except false false no_key) (GetUserAgreement userID)).
    unfold GetUserAgreement. frame.
  - revert w. change (preserves (same_except false false no_key) (GetOrderByID orderID)).
    unfold GetOrderByID. frame.
  - apply GetOrderStatistics_frame.
  - apply CheckRateLimit_frame.
  - by destruct w.
  - by destruct w.
Qed.

(** ** Cache keys *)

Lemma texture_cache_key_inj textureID textureID' :
  texture_cache_key textureID = texture_cache_key textureID' → textureID = textureID'.
Proof. unfold texture_cache_key. apply (inj (String.append "texture:")). Qed.

Lemma cache_key_kinds textureID userID action :
  texture_cache_key textureID ≠ "order_stats" ∧
  texture_cache_key textureID ≠ ratelimit_key userID action ∧
  ratelimit_key userID action ≠ "order_stats".
Proof. by split_and!. Qed.

(** X3. Each method that uses the cache touches one key only:
    [GetTextureByID] the key of its texture, [SaveOrder] and
    [GetOrderStatistics] the statistics key, [CheckRateLimit] the counter of
    its pair, whatever the services do; and keys of different kinds, or of
    different textures, never coincide. *)
Theorem cache_writes_are_isolated k w :
  (∀ textureID,
     k ≠ texture_cache_key textureID →
     cache (after (GetTextureByID textureID) w) !! k = cache w !! k) ∧
  (∀ order,
     k ≠ "order_stats" →
     cache (after (SaveOrder order) w) !! k = cache w !! k) ∧
  (k ≠ "order_stats" →
   cache (after GetOrderStatistics w) !! k = cache w !! k) ∧
  (∀ userID action limit window,
     k ≠ ratelimit_key userID action →
     cache (after (CheckRateLimit userID action limit window) w) !! k
     = cache w !! k) ∧
  (∀ textureID textureID' userID action,
     texture_cache_key textureID ≠ "order_stats" ∧
     texture_cache_key textureID ≠ ratelimit_key userID action ∧
     ratelimit_key userID action ≠ "order_stats" ∧
     (texture_cache_key textureID = texture_cache_key textureID' →
      textureID = textureID')).
Proof.
  split_and!.
  - intros textureID Hk. by apply (GetTextureByID_frame textureID w).
  - intros order Hk. by apply (SaveOrder_frame order w).
  - intros Hk. by apply (GetOrderStatistics_frame w).
  - intros userID action limit window Hk.
    by apply (CheckRateLimit_frame userID action limit window w).
  - intros textureID textureID' userID action.
    destruct (cache_key_kinds textureID userID action) as (H1 & H2 & H3).
    split_and!; [done..|]. apply texture_cache_key_inj.
Qed.

Lemma cache_writes_are_isolated_witness :
  let w := with_cached "order_stats" (JStats zero_OrderStatistics)
             (world_of sample_rows [leather]) in
  cache (after (GetTextureByID "t1") w) !! "order_stats" = cache w !! "order_stats" ∧
  cache (after (CheckRateLimit 7 "order" 3 Hour) w) !! "order_stats"
  = cache w !! "order_stats" ∧
  cache (after (SaveOrder sample_order) w) !! texture_cache_key "t1"
  = cache w !! texture_cache_key "t1".
Proof.
  intros w.
  destruct (cache_writes_are_isolated "order_stats" w) as (Htex & _ & _ & Hrate & _).
  destruct (cache_writes_are_isolated (texture_cache_key "t1") w) as (_ & Hsave & _).
  split; [apply Htex; discriminate|]. split; [apply Hrate; discriminate|].
  apply Hsave. discriminate.
Defined.

(** ** Sessions *)

Lemma session_snoc cs c w : session (cs ++ [c]) w = perform c (session cs w).
Proof. unfold session. by rewrite foldl_app. Qed.

(** X4. No sequence of calls, whatever fails in between, changes the
    [textures] table: the storage only ever reads it. *)
Theorem session_keeps_textures cs w : textures (session cs w) = textures w.
Proof.
  induction cs as [|c cs IH] using rev_ind; [done|].
  rewrite session_snoc. destruct (perform_frame c (session cs w)) as (Ht & _).
  by rewrite Ht.
Qed.

Lemma perform_keeps_agreed c w : all_agreed w → all_agreed (perform c w).
Proof.
  intros Ha. destruct (perform_frame c w) as (_ & Hu & _).
  destruct c; try (unfold all_agreed; rewrite (Hu eq_refl); exact Ha).
  cbn [perform]. unfold after. rewrite SaveUserAgreement_run.
  destruct (db_faults w) as [|[msg|] dfs]; cbn [snd]; [|done|].
  all: intros u row; destruct w; cbn [users set_users set_db_faults] in *;
    destruct (decide (userID = u)) as [->|Hne];
    [rewrite lookup_insert_eq; by intros [= <-]
    |rewrite lookup_insert_ne by done; apply Ha].
Qed.

(** X5. Consent is never taken back: if every stored agreement is a given
    consent, it stays so after any sequence of calls, and then
    [GetUserAgreement] answers either agreed, or not agreed with an empty
    phone. *)
Theorem session_keeps_agreed cs w userID :
  all_agreed w →
  let w' := session cs w in
  all_agreed w' ∧
  ∀ agreed phone e,
    result (GetUserAgreement userID) w' = (agreed, phone, e) →
    agreed = false → phone = EmptyString.
Proof.
  intros Ha w'.
  assert (all_agreed w') as Ha'.
  { unfold w'. induction cs as [|c cs IH] using rev_ind; [done|].
    rewrite session_snoc. by apply perform_keeps_agreed. }
  split; [done|]. intros agreed phone e. rewrite GetUserAgreement_run.
  destruct (db_faults w') as [|[msg|] dfs]; [|by intros [= <- <- <-]|];
    (destruct (users w' !! userID) as [row|] eqn:Hrow; [|by intros [= <- <- <-]]);
    intros [= <- <- <-] Hf; by rewrite (Ha' _ _ Hrow) in Hf.
Qed.

Lemma session_keeps_agreed_witness :
  let cs := [DoSaveUserAgreement 7 "+100"; DoDeleteUserData 7; Wait Hour;
             DoSaveUserAgreement 8 "+200"] in
  all_agreed empty_world ∧
  all_agreed (session cs empty_world) ∧
  result (GetUserAgreement 7) (session cs empty_world) = (true, "+100", None) ∧
  result (GetUserAgreement 9) (session cs empty_world) = (false, EmptyString, None).
Proof.
  intros cs.
  assert (all_agreed empty_world) as H0.
  { intros u row Hu. unfold empty_world, world_of in Hu. cbn [users] in Hu.
    rewrite lookup_empty in Hu. discriminate Hu. }
  destruct (session_keeps_agreed cs empty_world 7 H0) as [Ha _].
  split; [exact H0|]. split; [exact Ha|]. split; reflexivity.
Defined.

(** ** Orders are only added or stamped *)

#[local] Instance orders_grow_refl : Reflexive orders_grow.
Proof.
  intros w. split; [lia|]. exists []. split_and!.
  - by rewrite app_nil_r.
  - constructor.
  - intros i r r' Hr Hr'. by simplify_eq.
Qed.

Lemma orders_grow_lookup w w' i r :
  orders_grow w w' → orders w !! i = Some r →
  ∃ r', orders w' !! i = Some r' ∧ scan_order r' = scan_order r.
Proof.
  intros (_ & new & Heq & _) Hr.
  assert ((scan_order <$> orders w') !! i = Some (scan_order r)) as Hi.
  { rewrite Heq. apply lookup_app_l_Some. by rewrite list_lookup_fmap, Hr. }
  rewrite list_lookup_fmap in Hi.
  destruct (orders w' !! i) as [r'|]; [|done]. exists r'. split; [done|].
  simpl in Hi. congruence.
Qed.

#[local] Instance orders_grow_trans : Transitive orders_grow.
Proof.
  intros w1 w2 w3 H12 H23.
  pose proof H12 as (Hn12 & new12 & Heq12 & Hb12 & Hd12).
  pose proof H23 as (Hn23 & new23 & Heq23 & Hb23 & Hd23).
  split; [lia|]. exists (new12 ++ new23). split_and!.
  - by rewrite Heq23, Heq12, (assoc_L (++)).
  - apply Forall_app. split.
    + eapply Forall_impl; [done|]. cbn. intros. lia.
    + eapply Forall_impl; [done|]. cbn. intros. lia.
  - intros i r r'' Hr Hr'' Hdel.
    destruct (orders_grow_lookup w1 w2 i r H12 Hr) as (r' & Hr' & _). eauto.
Qed.

Lemma orders_grow_same w w' :
  orders w' = orders w → next_order_id w' = next_order_id w → orders_grow w w'.
Proof.
  intros Ho Hn. split; [lia|]. exists []. rewrite Ho, Hn. split_and!.
  - by rewrite app_nil_r.
  - constructor.
  - intros i r r' Hr Hr'. by simplify_eq.
Qed.

Lemma soft_delete_keeps_image chatID t (rows : list OrderRow) :
  scan_order <$> ((λ r, if bool_decide (user_id r = chatID)
                        then soft_delete t r else r) <$> rows)
  = scan_order <$> rows.
Proof.
  rewrite <-list_fmap_compose. apply list_fmap_ext.
  intros i r _. cbn. by case_bool_decide.
Qed.

Lemma DeleteUserData_grows chatID w :
  orders_grow w (after (DeleteUserData chatID) w).
Proof.
  unfold after. rewrite DeleteUserData_run.
  destruct (db_faults w) as [|[msg|] dfs] eqn:Hd; cbn [snd].
  2:{ apply orders_grow_same; by destruct w. }
  all: split; [by destruct w|]; exists [].
  all: destruct w as [t os n ts us dfs' c cfs];
    cbn [orders set_orders set_db_faults next_order_id now] in *.
  all: rewrite soft_delete_keeps_image, app_nil_r; split_and!; [done|constructor|].
  all: intros i r r' Hr Hr' Hdel; rewrite list_lookup_fmap, Hr in Hr';
    injection Hr' as <-; by case_bool_decide.
Qed.

Lemma SaveOrder_tables order w :
  orders (after (SaveOrder order) w)
  = (if decide (served (db_faults w))
     then orders w ++ [new_order_row (next_order_id w) order]
     else orders w) ∧
  next_order_id (after (SaveOrder order) w)
  = (if decide (served (db_faults w)) then next_order_id w + 1 else next_order_id w).
Proof.
  unfold after, SaveOrder, bind. rewrite exec_insert_order_run.
  destruct (db_faults w) as [|[msg|] dfs] eqn:Hd; cbn [served decide served_dec].
  2:{ by destruct w. }
  all: match goal with |- context [redis_Del ?k ?w0] =>
         destruct (redis_Del_tables k w0) as [Ho Hn]; unfold after in Ho, Hn;
         destruct (redis_Del k w0) as [e w'] end.
  all: cbn [snd ret] in *; rewrite Ho, Hn; by destruct w.
Qed.

Lemma SaveOrder_grows order w : orders_grow w (after (SaveOrder order) w).
Proof.
  destruct (SaveOrder_tables order w) as [Ho Hn].
  destruct (decide (served (db_faults w))); [|by apply orders_grow_same].
  split; [lia|]. exists [scan_order (new_order_row (next_order_id w) order)].
  rewrite Ho, Hn. split_and!.
  - by rewrite fmap_app.
  - apply Forall_singleton. cbn. lia.
  - intros i r r' Hr Hr' Hdel. rewrite lookup_app_l in Hr'; [by simplify_eq|].
    by eapply lookup_lt_Some.
Qed.

Lemma perform_grows c w : orders_grow w (perform c w).
Proof.
  destruct (perform_frame c w) as (_ & _ & Ho & _).
  destruct c; try (destruct (Ho eq_refl); by apply orders_grow_same).
  - apply DeleteUserData_grows.
  - apply SaveOrder_grows.
Qed.

Lemma session_grows cs w : orders_grow w (session cs w).
Proof.
  induction cs as [|c cs IH] using rev_ind; [done|].
  rewrite session_snoc. etrans; [done|]. apply perform_grows.
Qed.

(** Two rows that agree on every column but [deleted_at]. *)
Lemma scan_order_eq_stamp (r r' : OrderRow) :
  scan_order r' = scan_order r →
  r' = mkOrderRow (id r) (user_id r) (width_cm r) (height_cm r) (texture_id r)
                  (price r) (leather_cost r) (process_cost r) (total_cost r)
                  (commission r) (tax r) (net_revenue r) (profit r) (contact r)
                  (status r) (created_at r) (deleted_at r').
Proof.
  intros H. destruct r, r'. unfold scan_order in H. cbn in H |- *.
  injection H as -> -> -> -> -> -> -> -> -> -> -> -> -> -> -> ->. reflexivity.
Qed.

(** X6. An order is created once and never physically removed: after any
    sequence of calls, failures included, every row of [orders] is still in
    its place, either as it was or with a deletion timestamp set and nothing
    else changed; a row that carried a deletion timestamp still carries
    one. *)
Theorem orders_are_never_removed cs w i r :
  orders w !! i = Some r →
  ∃ r', orders (session cs w) !! i = Some r' ∧
        (r' = r ∨ ∃ t, r' = soft_delete t r) ∧
        (is_Some (deleted_at r) → is_Some (deleted_at r')).
Proof.
  intros Hr. pose proof (session_grows cs w) as Hgrow.
  destruct (orders_grow_lookup _ _ i r Hgrow Hr) as (r' & Hr' & Himg).
  destruct Hgrow as (_ & _ & _ & _ & Hdel).
  exists r'. split; [done|]. split; [|by apply (Hdel i r r')].
  apply scan_order_eq_stamp in Himg.
  destruct (deleted_at r') as [t|] eqn:Ht.
  - right. exists t. by rewrite Himg.
  - left. rewrite Himg.
    destruct (deleted_at r) as [t0|] eqn:Ht0.
    + destruct (Hdel i r r' Hr Hr') as [t Ht']; [by rewrite Ht0|]. congruence.
    + destruct r. cbn in *. by subst.
Qed.

Lemma orders_are_never_removed_witness :
  let cs := [DoSaveOrder (order_by 8 1000); DoDeleteUserData 7; Wait Hour;
             Script [Some "timeout"] []; DoSaveOrder (order_by 7 5000);
             DoGetOrderByID 1; DoSaveOrder (order_by 7 5000)] in
  let w := world_of sample_rows [] in
  let r := new_order_row 1 (order_by 7 900) in
  orders w !! 0%nat = Some r ∧
  (id <$> orders (session cs w)) = [1; 2; 3; 4; 5] ∧
  (deleted_at <$> orders (session cs w)) = [Some 1000; None; Some 1000; None; None] ∧
  ∃ r', orders (session cs w) !! 0%nat = Some r' ∧
        (r' = r ∨ ∃ t, r' = soft_delete t r) ∧
        (is_Some (deleted_at r) → is_Some (deleted_at r')).
Proof.
  intros cs w r. split; [reflexivity|]. split; [reflexivity|]. split; [reflexivity|].
  apply (orders_are_never_removed cs w 0 r). reflexivity.
Defined.

(** ** Soft deletion *)

Lemma same_cache_no_key u o w w' : same_except u o no_key w w' → cache w' = cache w.
Proof. intros (_ & _ & _ & Hc). apply map_eq. intros k. apply Hc. by intros []. Qed.

Lemma filter_others_stamp chatID t (rows : list OrderRow) :
  filter (λ r, user_id r ≠ chatID)
    ((λ r, if bool_decide (user_id r = chatID) then soft_delete t r else r) <$> rows)
  = filter (λ r, user_id r ≠ chatID) rows.
Proof.
  induction rows as [|r rows IH]; [done|]. rewrite fmap_cons.
  case_bool_decide as Hr.
  - rewrite !filter_cons_False; [done|..]; cbn; by intros Hne.
  - rewrite !filter_cons_True by done. by f_equal.
Qed.

Lemma DeleteUserData_orders chatID w :
  orders (after (DeleteUserData chatID) w) = orders w ∨
  orders (after (DeleteUserData chatID) w)
  = (λ r, if bool_decide (user_id r = chatID) then soft_delete (now w) r else r)
      <$> orders w.
Proof.
  unfold after. rewrite DeleteUserData_run.
  destruct (db_faults w) as [|[msg|] dfs]; cbn [snd]; destruct w; auto.
Qed.

(** X7. [DeleteUserData] only stamps orders: it removes none, rewrites no
    column other than [deleted_at], leaves the orders of other users as they
    are, and touches neither the user's agreement row (the phone number
    stays stored), nor the textures, nor the cache (the cached statistics are
    not invalidated). *)
Theorem DeleteUserData_only_stamps chatID w :
  let w' := after (DeleteUserData chatID) w in
  users w' = users w ∧
  textures w' = textures w ∧
  cache w' = cache w ∧
  scan_order <$> orders w' = scan_order <$> orders w ∧
  filter (λ r, user_id r ≠ chatID) (orders w')
  = filter (λ r, user_id r ≠ chatID) (orders w).
Proof.
  intros w'. pose proof (perform_frame (DoDeleteUserData chatID) w) as Hf.
  cbn [perform writes_users writes_orders call_keys] in Hf. fold w' in Hf.
  pose proof (same_cache_no_key _ _ _ _ Hf) as Hc.
  destruct Hf as (Ht & Hu & _ & _). split_and!; [by apply Hu|done|done|..].
  all: destruct (DeleteUserData_orders chatID w) as [Ho|Ho]; fold w' in Ho;
    rewrite Ho; try done.
  - apply soft_delete_keeps_image.
  - apply filter_others_stamp.
Qed.

Lemma filter_visible_restamp userID chatID t (rows : list OrderRow) :
  Forall (λ r, user_id r = chatID → is_Some (deleted_at r)) rows →
  filter (visible_to userID)
    ((λ r, if bool_decide (user_id r = chatID) then soft_delete t r else r) <$> rows)
  = filter (visible_to userID) rows.
Proof.
  induction 1 as [|r rows Hr _ IH]; [done|]. rewrite fmap_cons.
  case_bool_decide as Hc.
  - rewrite !filter_cons_False; [done|..].
    + intros [_ Hd]. destruct (Hr Hc) as [x Hx]. congruence.
    + by intros [_ Hd].
  - destruct (decide (visible_to userID r)).
    + rewrite !filter_cons_True by done. by f_equal.
    + by rewrite !filter_cons_False.
Qed.

(** X8. A second [DeleteUserData] for the same user changes nothing in
    what [GetUserOrders] returns, for this user or any other, but it stamps
    the user's orders again: their deletion timestamp becomes the time of the
    second call and the time of the first deletion is lost. *)
Theorem DeleteUserData_again_restamps chatID d w :
  served (db_faults w) →
  let w1 := after (DeleteUserData chatID) w in
  let w2 := after (DeleteUserData chatID) (elapse d w1) in
  served (db_faults w1) →
  (∀ r, r ∈ orders w1 → user_id r = chatID → deleted_at r = Some (now w)) ∧
  (∀ r, r ∈ orders w2 → user_id r = chatID → deleted_at r = Some (now w + d)) ∧
  (∀ userID,
     user_order_rows userID (orders w2) = user_order_rows userID (orders w1)) ∧
  user_order_rows chatID (orders w2) = [].
Proof.
  intros Hs w1 w2 Hs1.
  assert (orders w1 = (λ r, if bool_decide (user_id r = chatID)
                            then soft_delete (now w) r else r) <$> orders w) as Ho1.
  { unfold w1, after. rewrite DeleteUserData_run.
    by destruct (served_cases _ Hs) as [->|[fs' ->]]. }
  assert (now w1 = now w) as Hn1.
  { unfold w1, after. rewrite DeleteUserData_run.
    destruct (served_cases _ Hs) as [->|[fs' ->]]; by destruct w. }
  assert (orders w2 = (λ r, if bool_decide (user_id r = chatID)
                            then soft_delete (now w + d) r else r) <$> orders w1) as Ho2.
  { unfold w2, after. rewrite DeleteUserData_run.
    assert (db_faults (elapse d w1) = db_faults w1) as -> by done.
    destruct (served_cases _ Hs1) as [->|[fs' ->]]; cbn [snd];
      by destruct w1; cbn in *; subst. }
  assert (∀ t (rows : list OrderRow) r,
            r ∈ (λ r, if bool_decide (user_id r = chatID)
                      then soft_delete t r else r) <$> rows →
            user_id r = chatID → deleted_at r = Some t) as Hstamp.
  { intros t rows r (r0 & -> & _)%list_elem_of_fmap Hu.
    case_bool_decide as Hc; [done|]. by destruct Hc. }
  assert (∀ r, r ∈ orders w1 → user_id r = chatID → deleted_at r = Some (now w))
    as H1 by (rewrite Ho1; apply Hstamp).
  assert (∀ userID,
            filter (visible_to userID) (orders w2)
            = filter (visible_to userID) (orders w1)) as Hvis.
  { intros userID. rewrite Ho2. apply filter_visible_restamp.
    apply Forall_forall. intros r Hr Hu. rewrite (H1 r Hr Hu). by eexists. }
  split_and!.
  - done.
  - rewrite Ho2. apply Hstamp.
  - intros userID. unfold user_order_rows. by rewrite Hvis.
  - unfold user_order_rows. rewrite Hvis.
    assert (filter (visible_to chatID) (orders w1) = []) as ->; [|done].
    apply elem_of_nil_inv. intros r [[Hu Hd] Hr]%list_elem_of_filter.
    specialize (H1 r Hr Hu). congruence.
Qed.

Lemma DeleteUserData_again_restamps_witness :
  let w := world_of sample_rows [] in
  let w1 := after (DeleteUserData 7) w in
  let w2 := after (DeleteUserData 7) (elapse Hour w1) in
  (deleted_at <$> orders w1) = [Some 1000; None; Some 1000] ∧
  (deleted_at <$> orders w2) = [Some (1000 + Hour); None; Some (1000 + Hour)] ∧
  user_order_rows 8 (orders w2) = user_order_rows 8 (orders w1) ∧
  user_order_rows 7 (orders w2) = [].
Proof.
  intros w w1 w2.
  destruct (DeleteUserData_again_restamps 7 Hour w) as (_ & _ & Hsame & Hnone);
    [exact I|exact I|].
  split; [reflexivity|]. split; [reflexivity|]. split; [apply Hsame|exact Hnone].
Defined.

(** X9. After a successful [SaveOrder], [GetUserOrders] for the order's
    user returns the orders it returned before together with the new one, and
    for every other user exactly what it returned before. *)
Theorem SaveOrder_then_GetUserOrders order w :
  served (db_faults w) →
  let w' := after (SaveOrder order) w in
  served (db_faults w') →
  (∃ rows,
     result (GetUserOrders (UserID order)) w' = (scan_user_order <$> rows, None) ∧
     rows ≡ₚ new_order_row (next_order_id w) order
             :: user_order_rows (UserID order) (orders w)) ∧
  (∀ userID,
     userID ≠ UserID order →
     result (GetUserOrders userID) w'
     = (scan_user_order <$> user_order_rows userID (orders w), None)).
Proof.
  intros Hs w' Hs'.
  destruct (SaveOrder_tables order w) as [Ho _]. fold w' in Ho.
  rewrite decide_True in Ho by done. split.
  - eexists. split; [by apply GetUserOrders_served|].
    unfold user_order_rows. rewrite !merge_sort_Permutation, Ho, filter_app.
    rewrite filter_cons_True by done. rewrite filter_nil.
    by rewrite <-Permutation_cons_append.
  - intros userID Hne. rewrite GetUserOrders_served by done.
    unfold user_order_rows. rewrite Ho, filter_app.
    rewrite filter_cons_False; [by rewrite filter_nil, app_nil_r|].
    intros [Hu _]. by apply Hne.
Qed.

Lemma SaveOrder_then_GetUserOrders_witness :
  let w := after (DeleteUserData 7) (world_of sample_rows []) in
  let w' := after (SaveOrder (order_by 7 2000)) w in
  result (GetUserOrders 7) w = ([], None) ∧
  result (GetUserOrders 7) w'
  = ([scan_user_order (new_order_row 4 (order_by 7 2000))], None) ∧
  result (GetUserOrders 8) w'
  = (scan_user_order <$> user_order_rows 8 (orders w), None).
Proof.
  intros w w'.
  destruct (SaveOrder_then_GetUserOrders (order_by 7 2000) w) as [_ Hother];
    [exact I|exact I|].
  split; [reflexivity|]. split; [reflexivity|]. apply Hother. discriminate.
Defined.

(** ** Textures and their cache *)

Lemma query_texture_by_id_found textureID w t :
  result (query_texture_by_id textureID) w = (t, None) → TexID t = textureID.
Proof.
  rewrite query_texture_by_id_run.
  destruct (db_faults w) as [|[msg|] dfs]; [|done|];
    (destruct (head _) as [t'|] eqn:Hh; [|done]); intros [= <-];
    apply head_Some_elem_of, list_elem_of_filter in Hh; by destruct Hh.
Qed.

(** Strings of 7-bit characters go through [encoding/json] unchanged. *)
Lemma coerce_utf8_ascii s : is_ascii s = true → coerce_utf8 s = s.
Proof.
  induction s as [|c s IH]; [done|]. cbn [is_ascii]. intros [Hc Hs]%andb_prop.
  assert (utf8_first c = Some (0%nat, 0%N, 0%N)) as Hf.
  { unfold utf8_first. by rewrite Hc. }
  cbn [coerce_utf8]. rewrite Hf. by rewrite IH.
Qed.

(** A served read of a live, valid texture entry is a hit: the texture is
    returned as the document reads and the store is not asked. *)
Lemma GetTextureByID_hit textureID w t x :
  served (cache_faults w) →
  cache w !! texture_cache_key textureID = Some (mkEntry (JTexture t) x) →
  match x with Some x' => now w < x' | None => True end →
  f64_le_zero (PricePerDM2 t) = false →
  GetTextureByID textureID w
  = ((Some (json_read_Texture t), None), set_cache_faults (tail (cache_faults w)) w).
Proof.
  intros Hs Hc Hx Hle. rewrite GetTextureByID_dispatch, redis_Get_after.
  assert (cached_texture textureID w = Some (json_read_Texture t)) as ->; [|done].
  unfold cached_texture, result, redis_Get, bind, cache_call.
  assert (live (now w) (cache w !! texture_cache_key textureID)
          = Some (mkEntry (JTexture t) x)) as Hl.
  { apply live_Some. by split. }
  destruct (served_cases _ Hs) as [->|[fs' ->]]; cbn; rewrite ?Hl; cbn;
    by rewrite Hle.
Qed.

(** An expired entry is a miss. *)
Lemma GetTextureByID_expired textureID w en x :
  cache w !! texture_cache_key textureID = Some en →
  expires_at en = Some x → x ≤ now w →
  GetTextureByID textureID w
  = GetTextureByID_fallback textureID (set_cache_faults (tail (cache_faults w)) w).
Proof.
  intros Hc Hx Hle. rewrite GetTextureByID_dispatch, redis_Get_after.
  assert (cached_texture textureID w = None) as ->; [|done].
  unfold cached_texture, result, redis_Get, bind, cache_call.
  assert (live (now w) (cache w !! texture_cache_key textureID) = None) as Hl.
  { apply live_None. right. eauto. }
  destruct (cache_faults w) as [|[msg|] fs]; cbn; by rewrite ?Hl.
Qed.

(** X10. Once [GetTextureByID] has read a texture from the store and
    cached it, every call for that id during the next 24 hours returns what
    the cached document reads as, without asking the store, whatever has
    become of the row or of the store in the meantime: the texture itself
    when its strings are 7-bit text, and in general the texture with every
    byte of its strings that is not well-formed UTF-8 replaced by U+FFFD.
    From 24 hours on, the store is asked again. *)
Theorem GetTextureByID_cached_for_a_day textureID t w :
  cache_faults w = [] → db_faults w = [] →
  cache w !! texture_cache_key textureID = None →
  head (filter (λ t, TexID t = textureID) (textures w)) = Some t →
  f64_le_zero (PricePerDM2 t) = false →
  f64_is_finite (PricePerDM2 t) = true →
  let w' := after (GetTextureByID textureID) w in
  result (GetTextureByID textureID) w = (Some t, None) ∧
  (is_ascii (TexID t) = true → is_ascii (Name t) = true →
   is_ascii (ImageURL t) = true → json_read_Texture t = t) ∧
  ∀ w2,
    cache w2 = cache w' →
    (now w2 < now w + 24 * Hour →
     served (cache_faults w2) →
     GetTextureByID textureID w2
     = ((Some (json_read_Texture t), None),
        set_cache_faults (tail (cache_faults w2)) w2)) ∧
    (now w + 24 * Hour ≤ now w2 →
     GetTextureByID textureID w2
     = GetTextureByID_fallback textureID
         (set_cache_faults (tail (cache_faults w2)) w2)).
Proof.
  intros Hcf Hdf Hmiss Hrow Hle Hfin w'.
  assert (GetTextureByID textureID w
          = ((Some t, None),
             set_cache (<[texture_cache_key textureID
                          := mkEntry (JTexture t) (Some (now w + 24 * Hour))]>
                          (cache w)) w)) as Hfirst.
  { rewrite GetTextureByID_dispatch, redis_Get_after.
    assert (cached_texture textureID w = None) as ->.
    { unfold cached_texture, result. rewrite redis_Get_healthy by done.
      by rewrite Hmiss. }
    rewrite Hcf. cbn [tail].
    assert (set_cache_faults [] w = w) as -> by (destruct w; cbn in *; by subst).
    rewrite (GetTextureByID_fallback_valid _ _ t); [|by rewrite query_texture_by_id_run, Hdf, Hrow|done].
    unfold json_Marshal_Texture. rewrite Hfin, query_texture_by_id_after, Hdf.
    cbn [tail]. assert (set_db_faults [] w = w) as -> by (destruct w; cbn in *; by subst).
    unfold after. by rewrite redis_Set_healthy. }
  split; [unfold result; by rewrite Hfirst|]. split.
  { intros H1 H2 H3. unfold json_read_Texture.
    rewrite !coerce_utf8_ascii by done. by destruct t. }
  assert (cache w' !! texture_cache_key textureID
          = Some (mkEntry (JTexture t) (Some (now w + 24 * Hour)))) as Hc.
  { unfold w', after. rewrite Hfirst. cbn [snd set_cache cache].
    apply lookup_insert_eq. }
  intros w2 Hsame. rewrite <-Hsame in Hc. split.
  - intros Hnow Hs. by eapply GetTextureByID_hit.
  - intros Hnow. by eapply GetTextureByID_expired.
Qed.

Lemma GetTextureByID_cached_for_a_day_witness :
  let w := world_of [] [leather] in
  let w' := after (GetTextureByID "t1") w in
  let gone := with_faults [Some "connection reset"] []
                (mkWorld (1000 + Hour) [] 1 [] ∅ [] (cache w') []) in
  let late := elapse (24 * Hour) w' in
  let stray := String (ascii_of_N 255) "eather" in
  let garbled := mkTexture "t1" stray price_1_50 "leather.png" true in
  let v := world_of [] [garbled] in
  result (GetTextureByID "t1") w = (Some leather, None) ∧
  GetTextureByID "t1" gone = ((Some leather, None), set_cache_faults [] gone) ∧
  db_faults (after (GetTextureByID "t1") gone) = [Some "connection reset"] ∧
  GetTextureByID "t1" late
  = GetTextureByID_fallback "t1" (set_cache_faults [] late) ∧
  result (GetTextureByID "t1") v = (Some garbled, None) ∧
  result (GetTextureByID "t1") (after (GetTextureByID "t1") v)
  = (Some (mkTexture "t1" (replacement_char +:+ "eather") price_1_50
                     "leather.png" true), None).
Proof.
  intros w w' gone late stray garbled v.
  destruct (GetTextureByID_cached_for_a_day "t1" leather w) as (Hfirst & Hsame & Hnext);
    [reflexivity..|].
  destruct (GetTextureByID_cached_for_a_day "t1" garbled v) as (Hfirst' & _ & Hnext');
    [reflexivity..|].
  split; [exact Hfirst|].
  destruct (Hnext gone eq_refl) as [Hhit _].
  destruct (Hnext late eq_refl) as [_ Hmiss].
  destruct (Hnext' (after (GetTextureByID "t1") v) eq_refl) as [Hhit' _].
  split.
  { rewrite <-(Hsame eq_refl eq_refl eq_refl) at 1.
    apply Hhit; [reflexivity|exact I]. }
  split; [reflexivity|]. split.
  { apply Hmiss. vm_compute. discriminate. }
  split; [exact Hfirst'|].
  unfold result. rewrite Hhit'; [reflexivity|reflexivity|exact I].
Defined.

(** X11. [GetTextureByID] returns either a texture or an error, never both
    and never neither, and the price of a texture it returns is never
    [<= 0], wherever the texture comes from and whatever the services do. *)
Theorem GetTextureByID_never_returns_invalid textureID w :
  match result (GetTextureByID textureID) w with
  | (Some t, None) => f64_le_zero (PricePerDM2 t) = false
  | (None, Some _) => True
  | _ => False
  end.
Proof.
  unfold result. rewrite GetTextureByID_dispatch.
  destruct (cached_texture textureID w) as [t|] eqn:Hc.
  - cbn [fst]. unfold cached_texture in Hc.
    destruct (result _ w) as [cached [e|]]; [done|].
    destruct (json_Unmarshal_Texture cached) as [t'|]; [|done].
    destruct (f64_le_zero (PricePerDM2 t')) eqn:Hle; [done|]. by injection Hc as <-.
  - unfold GetTextureByID_fallback, bind.
    destruct (query_texture_by_id textureID _) as [[t [e|]] w1].
    + by destruct (errors_Is e ErrNoRows).
    + destruct (f64_le_zero (PricePerDM2 t)) eqn:Hle; [done|].
      destruct (json_Marshal_Texture t); [|done].
      by destruct (redis_Set _ _ _ _).
Qed.

Lemma redis_Set_cache key data ttl w :
  cache (after (redis_Set key data ttl) w) = cache w ∨
  cache (after (redis_Set key data ttl) w)
  = <[key := mkEntry data (Some (now w + ttl))]> (cache w).
Proof.
  destruct (decide (served (cache_faults w))).
  - right. by apply redis_Set_served.
  - left. by apply redis_Set_refused.
Qed.

Lemma GetTextureByID_fallback_writes_valid textureID w :
  let key := texture_cache_key textureID in
  let w' := after (GetTextureByID_fallback textureID) w in
  cache w' !! key = cache w !! key ∨
  ∃ en, cache w' !! key = Some en ∧ valid_texture_entry textureID en.
Proof.
  intros key w'. unfold w', after, GetTextureByID_fallback, bind.
  pose proof (query_texture_by_id_found textureID w) as Hid.
  pose proof (query_texture_by_id_after textureID w) as Hw1.
  unfold result, after in Hid, Hw1.
  destruct (query_texture_by_id textureID w) as [[t [e|]] w1]; cbn [fst snd] in *.
  - left. subst w1. destruct (errors_Is e ErrNoRows); by destruct w.
  - specialize (Hid t eq_refl).
    destruct (f64_le_zero (PricePerDM2 t)) eqn:Hle; [left; subst w1; by destruct w|].
    unfold json_Marshal_Texture.
    destruct (f64_is_finite (PricePerDM2 t)) eqn:Hfin; [|left; subst w1; by destruct w].
    pose proof (redis_Set_cache key (JTexture t) (24 * Hour) w1) as Hset.
    unfold after in Hset. fold key.
    destruct (redis_Set key (JTexture t) (24 * Hour) w1) as [e w2].
    cbn [snd ret] in *.
    destruct Hset as [->| ->].
    + left. subst w1. by destruct w.
    + right. eexists. split; [apply lookup_insert_eq|].
      exists t, (now w1 + 24 * Hour). done.
Qed.

Lemma GetTextureByID_writes_valid textureID w :
  let key := texture_cache_key textureID in
  let w' := after (GetTextureByID textureID) w in
  cache w' !! key = cache w !! key ∨
  ∃ en, cache w' !! key = Some en ∧ valid_texture_entry textureID en.
Proof.
  intros key w'. unfold w', after. rewrite GetTextureByID_dispatch.
  destruct (cached_texture textureID w).
  - left. cbn [snd]. by rewrite redis_Get_after.
  - set (w1 := after (redis_Get (texture_cache_key textureID)) w).
    assert (cache w1 = cache w) as Hc.
    { unfold w1. rewrite redis_Get_after. by destruct w. }
    pose proof (GetTextureByID_fallback_writes_valid textureID w1) as Hf.
    cbv zeta in Hf. unfold after in Hf. by rewrite Hc in Hf.
Qed.

Lemma call_keys_texture c textureID :
  call_keys c (texture_cache_key textureID) → c = DoGetTextureByID textureID.
Proof.
  destruct c; cbn [call_keys]; intros Hk; try done.
  by apply texture_cache_key_inj in Hk as ->.
Qed.

#[local] Instance call_keys_dec c k : Decision (call_keys c k).
Proof. destruct c; cbn [call_keys]; unfold no_key; apply _. Qed.

Lemma perform_keeps_cached_textures_valid c w :
  cached_textures_valid w → cached_textures_valid (perform c w).
Proof.
  intros Hv textureID en Hen.
  destruct (decide (call_keys c (texture_cache_key textureID))) as [Hk|Hk].
  - apply call_keys_texture in Hk as ->. cbn [perform] in Hen.
    destruct (GetTextureByID_writes_valid textureID w) as [Hsame|(en' & Hen' & Hvalid)].
    + rewrite Hsame in Hen. by apply Hv.
    + rewrite Hen' in Hen. by injection Hen as <-.
  - destruct (perform_frame c w) as (_ & _ & _ & Hc).
    rewrite Hc in Hen by done. by apply Hv.
Qed.

(** X12. If every texture entry of the cache is one that [GetTextureByID]
    wrote (as in an empty cache), this stays so after any sequence of calls;
    a served call that finds such an entry before its expiry then returns
    what it reads as: a texture with a finite price above zero whose id is
    the requested one as it reads back from JSON (the requested id itself
    when it is 7-bit text). *)
Theorem session_keeps_cached_textures_valid cs w textureID :
  cached_textures_valid w →
  let w' := session cs w in
  cached_textures_valid w' ∧
  ∀ en x,
    cache w' !! texture_cache_key textureID = Some en →
    expires_at en = Some x → now w' < x →
    served (cache_faults w') →
    ∃ t, result (GetTextureByID textureID) w' = (Some t, None) ∧
         TexID t = coerce_utf8 textureID ∧
         (is_ascii textureID = true → TexID t = textureID) ∧
         f64_le_zero (PricePerDM2 t) = false ∧
         f64_is_finite (PricePerDM2 t) = true.
Proof.
  intros Hv w'.
  assert (cached_textures_valid w') as Hv'.
  { unfold w'. induction cs as [|c cs IH] using rev_ind; [done|].
    rewrite session_snoc. by apply perform_keeps_cached_textures_valid. }
  split; [done|]. intros en x Hen Hx Hnow Hs.
  destruct (Hv' _ _ Hen) as (t & x' & -> & Hid & Hle & Hfin).
  cbn [expires_at] in Hx. injection Hx as ->.
  exists (json_read_Texture t). split_and!; [| |intros Ha|done..].
  - unfold result. by rewrite (GetTextureByID_hit textureID w' t (Some x)).
  - cbn. by rewrite Hid.
  - cbn. by rewrite Hid, coerce_utf8_ascii.
Qed.

Lemma session_keeps_cached_textures_valid_witness :
  let cs := [DoGetTextureByID "t1"; DoCheckRateLimit 7 "order" 3 Hour;
             DoSaveOrder sample_order; Wait Hour] in
  let w := world_of [] [leather] in
  cached_textures_valid w ∧
  cache (session cs w) !! texture_cache_key "t1"
  = Some (mkEntry (JTexture leather) (Some (1000 + 24 * Hour))) ∧
  ∃ t, result (GetTextureByID "t1") (session cs w) = (Some t, None) ∧
       TexID t = "t1" ∧
       (is_ascii "t1" = true → TexID t = "t1") ∧
       f64_le_zero (PricePerDM2 t) = false ∧
       f64_is_finite (PricePerDM2 t) = true.
Proof.
  intros cs w.
  assert (cached_textures_valid w) as H0.
  { intros textureID en Hen. unfold w, world_of in Hen. cbn [cache] in Hen.
    rewrite lookup_empty in Hen. discriminate Hen. }
  destruct (session_keeps_cached_textures_valid cs w "t1" H0) as [_ Hhit].
  split; [exact H0|]. split; [reflexivity|].
  apply (Hhit (mkEntry (JTexture leather) (Some (1000 + 24 * Hour)))
              (1000 + 24 * Hour)).
  - reflexivity.
  - reflexivity.
  - reflexivity.
  - exact I.
Defined.

Lemma GetTextureByID_refuses textureID t w :
  cached_texture textureID w = None →
  served (db_faults w) →
  head (filter (λ t, TexID t = textureID) (textures w)) = Some t →
  f64_le_zero (PricePerDM2 t) = true →
  ∃ e, result (GetTextureByID textureID) w = (None, Some e).
Proof.
  intros Hmiss Hs Hrow Hle. unfold result.
  rewrite GetTextureByID_dispatch, Hmiss, redis_Get_after.
  erewrite (GetTextureByID_fallback_invalid _ _ t); [by eexists| |done].
  rewrite query_texture_by_id_run.
  assert (db_faults (set_cache_faults (tail (cache_faults w)) w) = db_faults w)
    as -> by (by destruct w).
  assert (textures (set_cache_faults (tail (cache_faults w)) w) = textures w)
    as -> by (by destruct w).
  rewrite Hrow. by destruct (served_cases _ Hs) as [->|[fs' ->]].
Qed.

Lemma GetAvailableTextures_run w :
  GetAvailableTextures w =
    (match db_faults w with
     | Some msg :: _ => ([], Some (Wrap "failed to get textures" (Fault msg)))
     | _ => (scan_available_texture <$> filter (λ t, InStock t = true) (textures w),
             None)
     end, set_db_faults (tail (db_faults w)) w).
Proof.
  unfold GetAvailableTextures, query_available_textures, bind, db_call.
  destruct w as [t os n ts us dfs c cfs]. cbn [db_faults].
  by destruct dfs as [|[msg|] dfs].
Qed.

(** X13. A served [GetAvailableTextures] lists the in-stock rows of
    [textures] and only them, each with its [InStock] field false, because
    the column is not read; it validates no price, so that an in-stock
    texture with price [<= 0] is listed although [GetTextureByID] refuses
    it. *)
Theorem GetAvailableTextures_lists_unvalidated w :
  served (db_faults w) →
  ∃ listed,
    result GetAvailableTextures w = (listed, None) ∧
    (∀ t', t' ∈ listed →
       InStock t' = false ∧
       ∃ t, t ∈ textures w ∧ InStock t = true ∧ TexID t' = TexID t ∧
            Name t' = Name t ∧ PricePerDM2 t' = PricePerDM2 t ∧
            ImageURL t' = ImageURL t) ∧
    (∀ t, t ∈ textures w → InStock t = true → scan_available_texture t ∈ listed) ∧
    (∀ t, t ∈ textures w → InStock t = true →
       head (filter (λ t', TexID t' = TexID t) (textures w)) = Some t →
       f64_le_zero (PricePerDM2 t) = true →
       cached_texture (TexID t) w = None →
       ∃ e, result (GetTextureByID (TexID t)) w = (None, Some e)).
Proof.
  intros Hs. eexists. split_and!.
  - unfold result. rewrite GetAvailableTextures_run.
    by destruct (served_cases _ Hs) as [->|[fs' ->]].
  - intros t' (t & -> & [Hin Ht]%list_elem_of_filter)%list_elem_of_fmap.
    split; [done|]. by exists t.
  - intros t Ht Hin. apply list_elem_of_fmap. exists t. split; [done|].
    by apply list_elem_of_filter.
  - intros t _ _ Hrow Hle Hmiss. by eapply GetTextureByID_refuses.
Qed.

Lemma GetAvailableTextures_lists_unvalidated_witness :
  let w := world_of [] [leather_unpriced; mkTexture "t2" "Suede" price_40 "s.png" false] in
  result GetAvailableTextures w
  = ([mkTexture "t1" "Leather" f64_zero "leather.png" false], None) ∧
  ∃ e, result (GetTextureByID "t1") w = (None, Some e).
Proof.
  intros w.
  destruct (GetAvailableTextures_lists_unvalidated w) as (listed & _ & _ & _ & Hbad);
    [exact I|].
  split; [reflexivity|].
  apply (Hbad leather_unpriced).
  - apply list_elem_of_lookup. exists 0%nat. reflexivity.
  - reflexivity.
  - reflexivity.
  - reflexivity.
  - reflexivity.
Defined.

Lemma GetTextureByName_run name w :
  GetTextureByName name w =
    (match db_faults w with
     | Some msg :: _ => (None, Some (Wrap "failed to get texture" (Fault msg)))
     | _ =>
         match head (filter (λ t, Name t = name) (textures w)) with
         | Some t => (Some (scan_named_texture t), None)
         | None => (None, Some (Wrap "failed to get texture" (Sentinel ErrNoRows)))
         end
     end, set_db_faults (tail (db_faults w)) w).
Proof.
  unfold GetTextureByName, query_texture_by_name, bind, db_call.
  destruct w as [t os n ts us dfs c cfs]. cbn [db_faults].
  destruct dfs as [|[msg|] dfs]; cbn; [|done|]; by destruct (head _).
Qed.

(** X14. [GetTextureByName] neither reads nor writes the cache and
    validates nothing: served, it returns the first row with that name
    whatever its price, with an empty [ImageURL] and a false [InStock], even
    when [GetTextureByID] refuses that row; an absent name is reported under
    the same message as any other failure, telling it apart only by
    [errors.Is(err, sql.ErrNoRows)]. *)
Theorem GetTextureByName_bypasses_cache_and_validation name w :
  cache (after (GetTextureByName name) w) = cache w ∧
  cache_faults (after (GetTextureByName name) w) = cache_faults w ∧
  (served (db_faults w) →
   (∀ t, head (filter (λ t, Name t = name) (textures w)) = Some t →
         result (GetTextureByName name) w
         = (Some (mkTexture (TexID t) (Name t) (PricePerDM2 t) EmptyString false),
            None) ∧
         (head (filter (λ t', TexID t' = TexID t) (textures w)) = Some t →
          f64_le_zero (PricePerDM2 t) = true →
          cached_texture (TexID t) w = None →
          ∃ e, result (GetTextureByID (TexID t)) w = (None, Some e))) ∧
   (head (filter (λ t, Name t = name) (textures w)) = None →
    ∃ e, result (GetTextureByName name) w = (None, Some e) ∧
         errors_Is e ErrNoRows = true ∧
         Error e = "failed to get texture: sql: no rows in result set")) ∧
  (∀ msg, head (db_faults w) = Some (Some msg) →
     ∃ e, result (GetTextureByName name) w = (None, Some e) ∧
          errors_Is e ErrNoRows = false ∧
          Error e = "failed to get texture: " +:+ msg).
Proof.
  unfold result, after. rewrite GetTextureByName_run. cbn [fst snd].
  split_and!; [by destruct w..| |].
  - intros Hs. split.
    + intros t Ht. rewrite Ht.
      split; [by destruct (served_cases _ Hs) as [->|[fs' ->]]|].
      intros Hrow Hle Hmiss. by eapply GetTextureByID_refuses.
    + intros Hnone. rewrite Hnone. eexists.
      split; [by destruct (served_cases _ Hs) as [->|[fs' ->]]|done].
  - intros msg Hd. destruct (db_faults w) as [|[msg'|] dfs]; try done.
    injection Hd as ->. by eexists.
Qed.

Lemma GetTextureByName_bypasses_cache_and_validation_witness :
  let w := world_of [] [leather_unpriced] in
  result (GetTextureByName "Leather") w
  = (Some (mkTexture "t1" "Leather" f64_zero EmptyString false), None) ∧
  (∃ e, result (GetTextureByID "t1") w = (None, Some e)) ∧
  (∃ e, result (GetTextureByName "Suede") w = (None, Some e) ∧
        errors_Is e ErrNoRows = true ∧
        Error e = "failed to get texture: sql: no rows in result set").
Proof.
  intros w.
  destruct (GetTextureByName_bypasses_cache_and_validation "Leather" w)
    as (_ & _ & Hfound & _).
  destruct (GetTextureByName_bypasses_cache_and_validation "Suede" w)
    as (_ & _ & Habsent & _).
  destruct (Hfound I) as [Hrow _]. destruct (Habsent I) as [_ Hnone].
  destruct (Hrow leather_unpriced eq_refl) as [Hres Hrefused].
  split; [exact Hres|]. split.
  - apply Hrefused; reflexivity.
  - apply Hnone. reflexivity.
Defined.

(** ** Statistics *)

Section stamped_rows.
Context (f : OrderRow → OrderRow).
Context (Hprice : ∀ r, price (f r) = price r).
Context (Hcreated : ∀ r, created_at (f r) = created_at r).
Context (Hstatus : ∀ r, status (f r) = status r).

Lemma rows_since_fmap t back rows :
  rows_since t back (f <$> rows) = f <$> rows_since t back rows.
Proof using Hcreated.
  unfold rows_since. induction rows as [|r rows IH]; [done|]. rewrite fmap_cons.
  destruct (decide (current_date t - back ≤ created_at r)) as [Hr|Hr].
  - rewrite !filter_cons_True by (by rewrite ?Hcreated). rewrite fmap_cons.
    by f_equal.
  - by rewrite !filter_cons_False by (by rewrite ?Hcreated).
Qed.

Lemma sum_price_fmap rows : sum_price (f <$> rows) = sum_price rows.
Proof using Hprice.
  assert (∀ rows acc,
            foldl (λ acc r', f64_add acc (price r')) acc (f <$> rows)
            = foldl (λ acc r', f64_add acc (price r')) acc rows) as Hfold.
  { intros rows'. induction rows' as [|r' rows' IH]; [done|].
    intros acc. rewrite fmap_cons. cbn [foldl]. by rewrite Hprice, IH. }
  destruct rows as [|r rows]; [done|]. rewrite fmap_cons. unfold sum_price.
  by rewrite Hprice, Hfold.
Qed.

Lemma count_by_status_fmap rows :
  count_by_status (f <$> rows) = count_by_status rows.
Proof using Hstatus.
  induction rows as [|r rows IH]; [done|].
  rewrite fmap_cons. cbn [count_by_status foldr].
  fold (count_by_status (f <$> rows)). fold (count_by_status rows).
  by rewrite IH, Hstatus.
Qed.

Lemma statistics_of_fmap t rows :
  statistics_of t (f <$> rows) = statistics_of t rows.
Proof using All.
  unfold statistics_of. cbv zeta.
  by rewrite !rows_since_fmap, !sum_price_fmap, !length_fmap, count_by_status_fmap.
Qed.
End stamped_rows.

(** X15. The statistics count soft-deleted orders like any other: a
    [DeleteUserData] changes nothing in what [GetOrderStatistics] computes
    from the store. *)
Theorem statistics_ignore_soft_deletion chatID w :
  served (db_faults w) →
  let w' := after (DeleteUserData chatID) w in
  cached_statistics w' = None →
  all_served 5 (db_faults w') = true →
  result GetOrderStatistics w' = (Some (statistics_of (now w) (orders w)), None).
Proof.
  intros Hs w' Hmiss Hall. unfold result.
  rewrite GetOrderStatistics_dispatch, Hmiss.
  rewrite GetOrderStatistics_compute_served by (by rewrite redis_Get_after).
  cbn [fst]. rewrite redis_Get_after. do 2 f_equal.
  assert (now (set_cache_faults (tail (cache_faults w')) w') = now w) as ->.
  { unfold w', after. rewrite DeleteUserData_run.
    destruct (db_faults w) as [|[msg|] dfs]; by destruct w. }
  assert (orders (set_cache_faults (tail (cache_faults w')) w') = orders w') as ->
    by (by destruct w').
  destruct (DeleteUserData_orders chatID w) as [Ho|Ho]; fold w' in Ho; rewrite Ho;
    [done|].
  apply statistics_of_fmap; intros r; by case_bool_decide.
Qed.

Lemma statistics_ignore_soft_deletion_witness :
  let w := world_of sample_rows [] in
  let w' := after (DeleteUserData 7) w in
  result GetOrderStatistics w = (Some (statistics_of 1000 sample_rows), None) ∧
  TotalOrders (statistics_of 1000 sample_rows) = 3 ∧
  result (GetUserOrders 7) w' = ([], None) ∧
  result GetOrderStatistics w' = (Some (statistics_of 1000 sample_rows), None).
Proof.
  intros w w'. split; [reflexivity|]. split; [reflexivity|]. split; [reflexivity|].
  apply (statistics_ignore_soft_deletion 7 w); [exact I|reflexivity|reflexivity].
Defined.

Lemma filter_length_mono {A} (P Q : A → Prop)
    `{!∀ x, Decision (P x), !∀ x, Decision (Q x)} (l : list A) :
  (∀ x, P x → Q x) → (length (filter P l) ≤ length (filter Q l))%nat.
Proof.
  intros HPQ. induction l as [|x l IH]; [done|].
  destruct (decide (P x)) as [HP|HP].
  - rewrite !filter_cons_True by auto. cbn. lia.
  - rewrite (filter_cons_False P) by done.
    destruct (decide (Q x)); [rewrite filter_cons_True by done; cbn; lia|].
    by rewrite filter_cons_False.
Qed.

Lemma sum_counts_insert (m : gmap string Z) st n :
  sum_counts (<[st := n]> m) = n + sum_counts m - default 0 (m !! st).
Proof.
  unfold sum_counts.
  assert (∀ (m' : gmap string Z) k x, m' !! k = None →
            map_fold (λ _ n acc, n + acc) 0 (<[k := x]> m')
            = x + map_fold (λ _ n acc, n + acc) 0 m') as Hins.
  { intros m' k x Hk. apply (map_fold_insert_L (λ _ n acc, n + acc)); [|done].
    intros. lia. }
  destruct (m !! st) as [x|] eqn:Hst; cbn [default].
  - assert (map_fold (λ _ n acc, n + acc) 0 m
            = x + map_fold (λ _ n acc, n + acc) 0 (delete st m)) as ->.
    { rewrite <-(insert_delete_id m st x) at 1 by done.
      apply Hins, lookup_delete_eq. }
    rewrite <-(insert_delete_eq m st n), Hins by apply lookup_delete_eq.
    unfold Datatypes.id. lia.
  - rewrite Hins by done. lia.
Qed.

Lemma count_by_status_lookup rows st :
  default 0 (count_by_status rows !! st) = count_status st rows ∧
  (count_by_status rows !! st = None ↔ count_status st rows = 0).
Proof.
  unfold count_status. induction rows as [|r rows [IH1 IH2]].
  - cbn. split; [by rewrite lookup_empty|]. by rewrite lookup_empty.
  - cbn [count_by_status foldr]. fold (count_by_status rows).
    destruct (decide (status r = st)) as [Hr|Hr].
    + rewrite filter_cons_True by done. rewrite Hr, lookup_insert_eq, IH1.
      cbn [default length]. unfold Datatypes.id. split; [lia|]. split; [done|lia].
    + rewrite filter_cons_False by done. by rewrite lookup_insert_ne.
Qed.

Lemma sum_counts_count_by_status rows :
  sum_counts (count_by_status rows) = Z.of_nat (length rows).
Proof.
  induction rows as [|r rows IH]; [done|].
  cbn [count_by_status foldr]. fold (count_by_status rows).
  rewrite sum_counts_insert, IH. cbn [length].
  destruct (count_by_status rows !! status r); cbn [default]; unfold Datatypes.id; lia.
Qed.

(** What a served aggregate statement returns and leaves. *)
Lemma query_count_revenue_served since w n revenue w' :
  query_count_revenue since w = ((n, revenue, None), w') →
  n = Z.of_nat (length match since with
                       | None => orders w
                       | Some back => rows_since (now w) back (orders w)
                       end) ∧
  orders w' = orders w ∧ now w' = now w.
Proof.
  rewrite query_count_revenue_run. cbv zeta.
  destruct (db_faults w) as [|[msg|] dfs]; intros [= <- <- <-]; by destruct w.
Qed.

Lemma query_status_counts_served w counts w' :
  query_status_counts w = ((counts, None), w') →
  fill_status_counts counts = count_by_status (orders w).
Proof.
  rewrite query_status_counts_run.
  destruct (db_faults w) as [|[msg|] dfs]; intros [= <- <-];
    apply fill_status_counts_map_to_list.
Qed.

(** Without other clients, the interleaved computation is the plain one. *)
Lemma GetOrderStatistics_compute_alone :
  GetOrderStatistics_compute_among (λ _, ret tt) = GetOrderStatistics_compute.
Proof. reflexivity. Qed.

(** X16. The five statements of [GetOrderStatistics] run one after the
    other, without a transaction.  When nothing changes the [orders] table
    between them and less than six days pass from one to the next, the
    computed value is consistent: the order counts are nested, today's
    within the week's within the month's within the total; the status map
    holds for each status the number of orders with that status, has no
    entry for a status without order, and its counts add up to the total.
    (An insert between two statements breaks this.) *)
Theorem computed_statistics_are_consistent (others : nat → M unit) w stats :
  (∀ i w0, orders (after (others i) w0) = orders w0 ∧
           now (after (others i) w0) ≤ now w0 + 6 * Day) →
  result (GetOrderStatistics_compute_among others) w = (Some stats, None) →
  0 ≤ TodayOrders stats ≤ WeekOrders stats ∧
  WeekOrders stats ≤ MonthOrders stats ≤ TotalOrders stats ∧
  TotalOrders stats = Z.of_nat (length (orders w)) ∧
  sum_counts (StatusCounts stats) = TotalOrders stats ∧
  ∀ st,
    match StatusCounts stats !! st with
    | Some n => n = count_status st (orders w) ∧ 0 < n
    | None => count_status st (orders w) = 0
    end.
Proof.
  intros Hothers. unfold result, GetOrderStatistics_compute_among, bind.
  destruct (query_count_revenue None w) as [[[n1 v1] [e|]] w1] eqn:Hq1; [done|].
  apply query_count_revenue_served in Hq1 as (Hn1 & Ho1 & Ht1).
  destruct (Hothers 1%nat w1) as [Ho1' Ht1']. unfold after in Ho1', Ht1'.
  destruct (others 1%nat w1) as [[] w1']. cbn [snd] in Ho1', Ht1'.
  destruct (query_count_revenue (Some 0) w1') as [[[n2 v2] [e|]] w2] eqn:Hq2; [done|].
  apply query_count_revenue_served in Hq2 as (Hn2 & Ho2 & Ht2).
  destruct (Hothers 2%nat w2) as [Ho2' Ht2']. unfold after in Ho2', Ht2'.
  destruct (others 2%nat w2) as [[] w2']. cbn [snd] in Ho2', Ht2'.
  destruct (query_count_revenue (Some (7 * Day)) w2') as [[[n3 v3] [e|]] w3] eqn:Hq3;
    [done|].
  apply query_count_revenue_served in Hq3 as (Hn3 & Ho3 & Ht3).
  destruct (Hothers 3%nat w3) as [Ho3' Ht3']. unfold after in Ho3', Ht3'.
  destruct (others 3%nat w3) as [[] w3']. cbn [snd] in Ho3', Ht3'.
  destruct (query_count_revenue (Some (30 * Day)) w3') as [[[n4 v4] [e|]] w4] eqn:Hq4;
    [done|].
  apply query_count_revenue_served in Hq4 as (Hn4 & Ho4 & Ht4).
  destruct (Hothers 4%nat w4) as [Ho4' Ht4']. unfold after in Ho4', Ht4'.
  destruct (others 4%nat w4) as [[] w4']. cbn [snd] in Ho4', Ht4'.
  destruct (query_status_counts w4') as [[counts [e|]] w5] eqn:Hq5; [done|].
  apply query_status_counts_served in Hq5 as Hcounts.
  assert (orders w1' = orders w) as E1 by congruence.
  assert (orders w2' = orders w) as E2 by congruence.
  assert (orders w3' = orders w) as E3 by congruence.
  assert (orders w4' = orders w) as E4 by congruence.
  rewrite E1 in Hn2. rewrite E2 in Hn3. rewrite E3 in Hn4. rewrite E4 in Hcounts.
  intros Hres.
  assert (stats = mkOrderStatistics n1 v1 n2 v2 n3 v3 n4 v4 (count_by_status (orders w)))
    as ->.
  { rewrite <-Hcounts. cbv zeta in Hres.
    destruct (json_Marshal_OrderStatistics _); [destruct (redis_Set _ _ _ _)|];
      cbn in Hres; congruence. }
  cbn [TodayOrders WeekOrders MonthOrders TotalOrders StatusCounts].
  subst n1 n2 n3 n4. unfold rows_since.
  pose proof (filter_length_mono
                (λ r, current_date (now w1') - 0 ≤ created_at r)
                (λ r, current_date (now w2') - 7 * Day ≤ created_at r) (orders w)) as H1.
  pose proof (filter_length_mono
                (λ r, current_date (now w2') - 7 * Day ≤ created_at r)
                (λ r, current_date (now w3') - 30 * Day ≤ created_at r) (orders w)) as H2.
  pose proof (length_filter (λ r, current_date (now w3') - 30 * Day ≤ created_at r)
                (orders w)) as H3.
  assert (0 < Day) as HDay by (by vm_compute).
  pose proof (Z.mod_pos_bound (now w1') Day HDay) as M1.
  pose proof (Z.mod_pos_bound (now w2') Day HDay) as M2.
  pose proof (Z.mod_pos_bound (now w3') Day HDay) as M3.
  split_and!.
  - lia.
  - apply inj_le, H1. unfold current_date. intros. lia.
  - apply inj_le, H2. unfold current_date. intros. lia.
  - lia.
  - done.
  - apply sum_counts_count_by_status.
  - intros st. destruct (count_by_status_lookup (orders w) st) as [Hd Hn].
    destruct (count_by_status (orders w) !! st) as [n|] eqn:Hst.
    + cbn [default] in Hd. unfold Datatypes.id in Hd. split; [done|].
      assert (count_status st (orders w) ≠ 0) by (intros H0; by apply Hn in H0).
      unfold count_status in *. lia.
    + by apply Hn.
Qed.

Lemma computed_statistics_are_consistent_witness :
  let w := world_of sample_rows [] in
  let stats := statistics_of 1000 sample_rows in
  let alone (i : nat) : M unit := ret tt in
  let inserting (i : nat) : M unit :=
    if bool_decide (i = 1%nat) then SaveOrder (order_by 9 990) ;;; ret tt else ret tt in
  result GetOrderStatistics w = (Some stats, None) ∧
  result (GetOrderStatistics_compute_among alone) w = (Some stats, None) ∧
  TotalOrders stats = 3 ∧
  sum_counts (StatusCounts stats) = TotalOrders stats ∧
  TodayOrders stats ≤ WeekOrders stats ∧
  (∃ torn, result (GetOrderStatistics_compute_among inserting) w = (Some torn, None) ∧
           TotalOrders torn = 3 ∧ TodayOrders torn = 4).
Proof.
  intros w stats alone inserting.
  destruct (computed_statistics_are_consistent alone w stats)
    as ([_ H1] & _ & _ & H2 & _).
  { intros i w0. unfold alone, after, ret. cbn [snd]. split; [reflexivity|].
    assert (0 < Day) by (by vm_compute). lia. }
  { reflexivity. }
  split; [reflexivity|]. split; [reflexivity|]. split; [reflexivity|].
  split; [exact H2|]. split; [exact H1|].
  eexists. split; [by vm_compute|]. split; reflexivity.
Defined.





(** ** Rate limiter under cache failures *)

Section rate_limiter_failures.
Variables (userID : Z) (action : string) (limit : Z) (window : Duration).

(** Calls against a counter that has no expiry: time does not matter. *)
Lemma CheckRateLimit_run_stuck ds : ∀ w k,
  cache_faults w = [] →
  cache w !! ratelimit_key userID action = Some (mkEntry (JInt k) None) →
  1 ≤ k →
  k + Z.of_nat (length ds) ≤ max_int64 →
  ∃ w',
    run_calls (CheckRateLimit userID action limit window) ds w
    = (verdicts limit k (length ds), w') ∧
    cache w' !! ratelimit_key userID action
    = Some (mkEntry (JInt (k + Z.of_nat (length ds))) None).
Proof.
  induction ds as [|d ds IH]; intros w k Hf Hk Hk1 Hmax.
  { exists w. cbn. by rewrite Z.add_0_r. }
  cbn [length] in Hmax. rewrite Nat2Z.inj_succ in Hmax.
  cbn [run_calls]. unfold bind at 1. cbn [modify]. unfold bind at 1.
  rewrite (CheckRateLimit_step userID action limit window (elapse d w) k None);
    [|done| |lia].
  2:{ unfold counter_at, elapse. cbn [now cache]. by rewrite Hk. }
  rewrite (bool_decide_false (k + 1 = 1)) by lia. unfold bind, ret.
  destruct (IH (set_cache (<[ratelimit_key userID action
                             := mkEntry (JInt (k + 1)) None]> (cache (elapse d w)))
                          (elapse d w)) (k + 1)) as (w' & Hrun & Hc);
    [done|apply lookup_insert_eq|lia|lia|].
  rewrite Hrun. exists w'. split; [done|]. rewrite Hc. cbn [length].
  do 3 f_equal. lia.
Qed.

(** X18. When the increment itself fails, [CheckRateLimit] answers "not
    limited" together with the error and changes nothing.  When the
    increment succeeds but setting the expiry fails on a first call, the call
    also answers "not limited" with an error, but the counter stays at 1
    without any expiry: no later call sets one, the count only grows, and
    after [limit] calls the pair is refused however much time passes. *)
Theorem CheckRateLimit_under_cache_failures w :
  let key := ratelimit_key userID action in
  (∀ msg fs,
     cache_faults w = Some msg :: fs →
     CheckRateLimit userID action limit window w
     = ((false, Some (Wrap "failed to increment rate limit counter" (Fault msg))),
        set_cache_faults fs w)) ∧
  (∀ msg,
     cache_faults w = [None; Some msg] →
     live (now w) (cache w !! key) = None →
     let w' := after (CheckRateLimit userID action limit window) w in
     result (CheckRateLimit userID action limit window) w
     = (false, Some (Wrap "failed to set rate limit window" (Fault msg))) ∧
     cache w' !! key = Some (mkEntry (JInt 1) None) ∧
     ∀ ds,
       1 + Z.of_nat (length ds) ≤ max_int64 →
       result (run_calls (CheckRateLimit userID action limit window) ds) w'
       = verdicts limit 1 (length ds) ∧
       cache (after (run_calls (CheckRateLimit userID action limit window) ds) w')
         !! key
       = Some (mkEntry (JInt (1 + Z.of_nat (length ds))) None)).
Proof.
  intros key. split.
  - intros msg fs Hf. unfold CheckRateLimit, bind, redis_Incr, bind, cache_call.
    by rewrite Hf.
  - intros msg Hf Hl w'.
    assert (CheckRateLimit userID action limit window w
            = ((false, Some (Wrap "failed to set rate limit window" (Fault msg))),
               set_cache_faults []
                 (set_cache (<[key := mkEntry (JInt 1) None]> (cache w)) w))) as Hcall.
    { unfold CheckRateLimit, bind, redis_Incr, redis_Expire, bind, cache_call.
      fold key. rewrite Hf. cbn. rewrite Hl. cbn. by destruct w. }
    split; [unfold result; by rewrite Hcall|].
    assert (cache w' !! key = Some (mkEntry (JInt 1) None)) as Hk.
    { unfold w', after. rewrite Hcall. cbn. apply lookup_insert_eq. }
    split; [done|]. intros ds Hmax.
    destruct (CheckRateLimit_run_stuck ds w' 1) as (w2 & Hrun & Hc);
      [unfold w', after; by rewrite Hcall|done|done|done|].
    unfold result, after. by rewrite Hrun.
Qed.
End rate_limiter_failures.

Lemma CheckRateLimit_under_cache_failures_witness :
  let down := with_faults [] [Some "timeout"] empty_world in
  let flaky := with_faults [] [None; Some "timeout"] empty_world in
  let w' := after (CheckRateLimit 7 "order" 2 Hour) flaky in
  result (CheckRateLimit 7 "order" 2 Hour) down
  = (false, Some (Wrap "failed to increment rate limit counter" (Fault "timeout"))) ∧
  result (CheckRateLimit 7 "order" 2 Hour) flaky
  = (false, Some (Wrap "failed to set rate limit window" (Fault "timeout"))) ∧
  result (run_calls (CheckRateLimit 7 "order" 2 Hour) [Hour; 30 * Day; 30 * Day]) w'
  = [(false, None); (true, None); (true, None)].
Proof.
  intros down flaky w'.
  destruct (CheckRateLimit_under_cache_failures 7 "order" 2 Hour down) as [Hfail _].
  destruct (CheckRateLimit_under_cache_failures 7 "order" 2 Hour flaky) as [_ Hstuck].
  split.
  { unfold result. rewrite (Hfail "timeout" []); reflexivity. }
  destruct (Hstuck "timeout") as (Hres & _ & Hrun); [reflexivity|reflexivity|].
  split; [exact Hres|].
  destruct (Hrun [Hour; 30 * Day; 30 * Day]) as [Hv _]; [vm_compute; discriminate|].
  exact Hv.
Defined.

(** ** Spreadsheet export *)

Section export_properties.
Variable Format : string → Time → string.

Lemma query_orders_with_textures_run w :
  query_orders_with_textures w
  = (([], Some match db_faults w with
               | Some msg :: _ => Fault msg
               | _ => missing_destination_error "deleted_at" "*[]postgres.Order"
               end), set_db_faults (tail (db_faults w)) w).
Proof.
  unfold query_orders_with_textures, bind, db_call.
  assert (sqlx_missing_destination (orders_columns ++ ["texture_name"]) Order_db_tags
          = Some "deleted_at") as -> by (by vm_compute).
  destruct w as [t os n ts us dfs c cfs]. cbn [db_faults].
  by destruct dfs as [|[msg|] dfs].
Qed.

Lemma query_all_orders_run w :
  query_all_orders w
  = (([], Some match db_faults w with
               | Some msg :: _ => Fault msg
               | _ => missing_destination_error "deleted_at" "*[]postgres.Order"
               end), set_db_faults (tail (db_faults w)) w).
Proof.
  unfold query_all_orders, bind, db_call. rewrite orders_star_missing_destination.
  destruct w as [t os n ts us dfs c cfs]. cbn [db_faults].
  by destruct dfs as [|[msg|] dfs].
Qed.

(** X19. [ExportAllOrdersToExcel] never writes a workbook: its query reads
    [o.*], which brings the column [deleted_at] that [Order] has no field
    for, so that every call ends at the fetch with "failed to fetch orders",
    whatever the tables hold, and no file is created, filled or saved. *)
Theorem ExportAllOrdersToExcel_fails_at_fetch filename w d :
  ExportAllOrdersToExcel Format filename w d
  = (Some (Wrap "failed to fetch orders"
             match db_faults w with
             | Some msg :: _ => Fault msg
             | _ => New "missing destination name deleted_at in *[]postgres.Order"
             end),
     set_db_faults (tail (db_faults w)) w, d).
Proof.
  unfold ExportAllOrdersToExcel. rewrite query_orders_with_textures_run.
  by destruct (db_faults w) as [|[msg|] dfs].
Qed.


(** X23. [UpdateOrderStatus] never writes its report either: its query
    reads [SELECT *] into orders and every call ends at the fetch with
    "failed to fetch orders", for every [orderID] and [status], without any
    call to the spreadsheet library or the file system. *)
Theorem UpdateOrderStatus_fails_at_fetch orderID status w d :
  UpdateOrderStatus Format orderID status w d
  = (Some (Wrap "failed to fetch orders"
             match db_faults w with
             | Some msg :: _ => Fault msg
             | _ => New "missing destination name deleted_at in *[]postgres.Order"
             end),
     set_db_faults (tail (db_faults w)) w, d).
Proof.
  unfold UpdateOrderStatus. rewrite query_all_orders_run.
  by destruct (db_faults w) as [|[msg|] dfs].
Qed.
End export_properties.
